(** * Raycasting: the visibility engine of raycast.py

    A shallow embedding of raycast.py: the classes [Boundry], [Ray],
    [Particle] and [GameView], the affine stack of the drawing helpers, and
    the properties of the ray/segment intersection test, the nearest-hit
    scan and the ray fan.

    Numbers.  The numbers of the program are Python floats, that is IEEE 754
    binary64 numbers with rounding to nearest: they are the primitive
    floats of Rocq, whose [+], [-], [*], [/], [<], [<=] and [==] are the
    operations of the program, bit for bit, infinities, signed zeros and NaN
    included.  An [int] of the program (a literal such as [0], [360] or
    [WINDOW_WIDTH], a result of [random.randint]) stands for the float of the
    same value: the program mixes it with floats, which converts it, and its
    ints are small enough (at most 1024) for every operation on them to be
    exact.

    Library code.  [arcade.Vec2] is [pyglet.math.Vec2], an immutable named
    tuple of two numbers.  Its members and the other library functions that
    the modelled code calls are not part of the repository:
    - the truth value of a vector ([Vec2.__bool__]), [x != 0.0 or y != 0.0];
    - [Vec2.distance], [Vec2.from_polar], [Vec2.normalize], [math.radians],
      [math.cos], [math.sin], [noise.pnoise1] and [random.randint]:
      parameters of the definitions that use them;
    - [numpy.arange], modelled after its implementation for floats. *)

From Stdlib Require Import Floats ZArith List Bool Lia Permutation.
From Stdlib Require Uint63.
Import ListNotations.

Local Open Scope float_scope.

(** ** arcade.Vec2 *)

Record Vec2 : Type := mkVec2 { x : float; y : float }.

(** Modelled from the spec: [Vec2.__bool__] of pyglet.math is library code
    and not part of the repository; a vector is true unless both of its
    coordinates are zero ([x != 0.0 or y != 0.0]). *)
Definition Vec2_bool (v : Vec2) : bool :=
  negb (x v =? 0) || negb (y v =? 0).

(** The truth value of an [Optional[Vec2]], as tested by [if pt:] and
    [if closest:]: [None] is false, a vector has its own truth value. *)
Definition truthy (o : option Vec2) : bool :=
  match o with
  | None => false
  | Some v => Vec2_bool v
  end.

(** Modelled from the spec: [Vec2.distance] of pyglet.math is library code
    and not part of the repository; it is the Euclidean distance,
    [sqrt((q.x - p.x)**2 + (q.y - p.y)**2)], with the squares taken as
    products.  The properties below hold for every distance function; this
    one serves on concrete inputs. *)
Definition Vec2_distance (p q : Vec2) : float :=
  PrimFloat.sqrt ((x q - x p) * (x q - x p) + (y q - y p) * (y q - y p)).

(** ** Boundry: a wall, from [a] to [b] *)

Record Boundry : Type := mkBoundry { a : Vec2; b : Vec2 }.

(** [Boundry.__init__(x1, y1, x2, y2)] *)
Definition Boundry_init (x1 y1 x2 y2 : float) : Boundry :=
  {| a := mkVec2 x1 y1; b := mkVec2 x2 y2 |}.

(** ** The affine stack and the drawing helpers *)

(** A matrix [[a,b,e],[c,d,f],[0,0,1]], as the tuple [(a,b,c,d,e,f)]. *)
Definition Affine : Type :=
  (float * float * float * float * float * float)%type.

(** What the drawing helpers read and write: the module variable [_stack],
    a Python list whose last element is the current matrix, and the
    segments handed to [arcade.draw_line], in the order of the calls
    (colour and width are left out). *)
Record Screen : Type := mkScreen {
  _stack : list Affine;
  drawn : list (float * float * float * float)
}.

(** The outcome of a call: a value, or an exception (the [IndexError] of
    [_stack[-1]] and of [_stack.pop()] on an empty list). *)
Inductive outcome (A : Type) : Type :=
| Returned (v : A)
| Raised.

Arguments Returned {A} v.
Arguments Raised {A}.

(** A computation on the screen state; the state is kept when an exception
    is raised, so that a [finally] clause can go on from it. *)
Definition Draw (A : Type) : Type := Screen -> outcome A * Screen.

Definition ret {A : Type} (v : A) : Draw A := fun s => (Returned v, s).

Definition bind {A B : Type} (m : Draw A) (k : A -> Draw B) : Draw B :=
  fun s =>
    match m s with
    | (Returned v, s') => k v s'
    | (Raised, s') => (Raised, s')
    end.

Notation "x <- m ;; k" := (bind m (fun x => k))
  (at level 61, m at next level, right associativity).
Notation "' pat <- m ;; k" := (bind m (fun v => match v with pat => k end))
  (at level 61, pat pattern, m at next level, right associativity).
Notation "m ;; k" := (bind m (fun _ => k))
  (at level 61, right associativity).

(** [try: body finally: fin] *)
Definition finally {A : Type} (body : Draw A) (fin : Draw unit) : Draw A :=
  fun s =>
    let '(r, s') := body s in
    match fin s' with
    | (Returned _, s'') => (r, s'')
    | (Raised, s'') => (Raised, s'')
    end.

(** [_stack[-1]] *)
Definition stack_last : Draw Affine :=
  fun s =>
    match _stack s with
    | [] => (Raised, s)
    | m :: st => (Returned (last st m), s)
    end.

(** [_stack.append(m)] *)
Definition stack_append (m : Affine) : Draw unit :=
  fun s => (Returned tt, {| _stack := _stack s ++ [m]; drawn := drawn s |}).

(** [_stack.pop()] *)
Definition stack_pop : Draw unit :=
  fun s =>
    match _stack s with
    | [] => (Raised, s)
    | _ :: _ =>
        (Returned tt, {| _stack := removelast (_stack s); drawn := drawn s |})
    end.

(** The state of the module when it is loaded:
    [_stack = [(1, 0, 0, 1, 0, 0)]] and nothing drawn. *)
Definition initial_screen : Screen :=
  {| _stack := [(1, 0, 0, 1, 0, 0)]; drawn := [] |}.

(** [_apply(x, y)] *)
Definition _apply (x y : float) : Draw (float * float) :=
  '(a, b, c, d, e, f) <- stack_last ;;
  ret (a * x + b * y + e, c * x + d * y + f).

(** [with translate(pos): body] *)
Definition translate {A : Type} (pos : Vec2) (body : Draw A) : Draw A :=
  '(a, b, c, d, e, f) <- stack_last ;;
  stack_append (a, b, c, d, e + x pos, f + y pos) ;;
  finally body stack_pop.

(** [with rotate(deg): body]; [radians], [cos] and [sin] are those of
    [math]. *)
Definition rotate {A : Type} (radians cos sin : float -> float) (deg : float)
    (body : Draw A) : Draw A :=
  '(a, b, c, d, e, f) <- stack_last ;;
  let r := radians deg in
  let ca := cos r in
  let sa := sin r in
  stack_append (a * ca + b * sa, - a * sa + b * ca,
                c * ca + d * sa, - c * sa + d * ca, e, f) ;;
  finally body stack_pop.

(** [with scale(sx, sy): body]; [sy] is [None] when it is not given. *)
Definition scale {A : Type} (sx : float) (sy : option float) (body : Draw A)
    : Draw A :=
  let sy := match sy with None => sx | Some sy => sy end in
  '(a, b, c, d, e, f) <- stack_last ;;
  stack_append (a * sx, b * sy, c * sx, d * sy, e, f) ;;
  finally body stack_pop.

(** [arcade.draw_line(x1, y1, x2, y2, ...)]: the segment is recorded. *)
Definition arcade_draw_line (x1 y1 x2 y2 : float) : Draw unit :=
  fun s =>
    (Returned tt,
     {| _stack := _stack s; drawn := drawn s ++ [(x1, y1, x2, y2)] |}).

(** [draw_line(x1, y1, x2, y2)] *)
Definition draw_line (x1 y1 x2 y2 : float) : Draw unit :=
  '(X1, Y1) <- _apply x1 y1 ;;
  '(X2, Y2) <- _apply x2 y2 ;;
  arcade_draw_line X1 Y1 X2 Y2.

(** [noise(x, repeat, base)]; [pnoise1] is the Perlin noise of the package
    [noise]. *)
Definition noise (pnoise1 : float -> float -> float -> float)
    (x repeat base : float) : float :=
  let val := pnoise1 x repeat base in
  (val + 1) / 2.

(** ** Ray *)

Module Ray.

Record t : Type := mk { pos : Vec2; dir : Vec2 }.

(** The determinant [d] of [Ray.cast]. *)
Definition det (self : t) (obj : Boundry) : float :=
  let x1 := x (a obj) in
  let y1 := y (a obj) in
  let x2 := x (b obj) in
  let y2 := y (b obj) in
  let x3 := x (pos self) in
  let y3 := y (pos self) in
  let x4 := x (pos self) + x (dir self) in
  let y4 := y (pos self) + y (dir self) in
  (x1 - x2) * (y3 - y4) - (y1 - y2) * (x3 - x4).

(** The parameter [t] of [Ray.cast]: the position along the wall. *)
Definition param_t (self : t) (obj : Boundry) : float :=
  let x1 := x (a obj) in
  let y1 := y (a obj) in
  let x3 := x (pos self) in
  let y3 := y (pos self) in
  let x4 := x (pos self) + x (dir self) in
  let y4 := y (pos self) + y (dir self) in
  ((x1 - x3) * (y3 - y4) - (y1 - y3) * (x3 - x4)) / det self obj.

(** The parameter [u] of [Ray.cast]: the position along the ray. *)
Definition param_u (self : t) (obj : Boundry) : float :=
  let x1 := x (a obj) in
  let y1 := y (a obj) in
  let x2 := x (b obj) in
  let y2 := y (b obj) in
  let x3 := x (pos self) in
  let y3 := y (pos self) in
  - (((x1 - x2) * (y1 - y3) - (y1 - y2) * (x1 - x3)) / det self obj).

(** The point [a + t*(b-a)] of the wall, as [Ray.cast] computes it. *)
Definition wall_point (obj : Boundry) (t : float) : Vec2 :=
  mkVec2 (x (a obj) + t * (x (b obj) - x (a obj)))
         (y (a obj) + t * (y (b obj) - y (a obj))).

(** [Ray.cast(self, obj)] *)
Definition cast (self : t) (obj : Boundry) : option Vec2 :=
  (* L1 *)
  let x1 := x (a obj) in
  let y1 := y (a obj) in
  let x2 := x (b obj) in
  let y2 := y (b obj) in
  (* L2 *)
  let x3 := x (pos self) in
  let y3 := y (pos self) in
  let x4 := x (pos self) + x (dir self) in
  let y4 := y (pos self) + y (dir self) in
  let d := (x1 - x2) * (y3 - y4) - (y1 - y2) * (x3 - x4) in
  if d =? 0 then
    (* Ray and object are parallel to each other *)
    None
  else
    let t := ((x1 - x3) * (y3 - y4) - (y1 - y3) * (x3 - x4)) / d in
    let u := - (((x1 - x2) * (y1 - y3) - (y1 - y2) * (x1 - x3)) / d) in
    if (0 <? t) && (t <=? 1) && (0 <? u) then
      Some (mkVec2 (x1 + t * (x2 - x1)) (y1 + t * (y2 - y1)))
    else
      (* Ray doesn't intersect *)
      None.

(** [Ray.move_to(self, p)] *)
Definition move_to (self : t) (p : Vec2) : t :=
  {| pos := p; dir := dir self |}.

(** [Ray.__init__(self, pos, angle_r)]; [from_polar] is
    [arcade.Vec2.from_polar], the unit vector of an angle in radians. *)
Definition init (from_polar : float -> Vec2) (pos : Vec2) (angle_r : float)
    : t :=
  {| pos := pos; dir := from_polar angle_r |}.

(** [Ray.look_at(self, d)]; [normalize] is [arcade.Vec2.normalize]. *)
Definition look_at (normalize : Vec2 -> Vec2) (self : t) (d : Vec2) : t :=
  {| pos := pos self;
     dir := normalize (mkVec2 (x d - x (pos self)) (y d - y (pos self))) |}.

(** [Ray.show(self)] *)
Definition show (self : t) : Draw unit :=
  translate (pos self)
    (draw_line 0 0 (x (dir self) * 10) (y (dir self) * 10)).

End Ray.

(** ** numpy.arange *)

(** The least integer not below a float; [None] for an infinity and for
    NaN. *)
Definition float_ceil (f : float) : option Z :=
  match Prim2SF f with
  | S754_zero _ => Some 0%Z
  | S754_finite s m e =>
      Some (if (0 <=? e)%Z then
              if s then (- (Z.pos m * 2 ^ e))%Z else (Z.pos m * 2 ^ e)%Z
            else
              if s then (- (Z.pos m / 2 ^ (- e)))%Z
              else (- (- Z.pos m / 2 ^ (- e)))%Z)
  | S754_infinity _ | S754_nan => None
  end.

(** The float of a natural number. *)
Definition float_of_nat (i : nat) : float :=
  of_uint63 (Uint63.of_Z (Z.of_nat i)).

(** The element of index [i] of [numpy.arange(start, stop, step)]: the two
    first are [start] and [start + step], the others are
    [start + i*delta] for the difference [delta] of the two first. *)
Definition arange_item (start step : float) (i : nat) : float :=
  match i with
  | O => start
  | S O => start + step
  | _ => start + float_of_nat i * (start + step - start)
  end.

(** Modelled from the spec: [numpy.arange(start, stop, step)] is library
    code and not part of the repository.  This is the length that numpy
    computes for floats: the ceiling of the float [(stop - start)/step];
    when that float is zero although [stop - start] is not (an underflow,
    or an infinite step), 0 for a negative zero and 1 otherwise.  [None]
    stands for the exceptions: a length that is NaN, infinite or outside
    the indices [-2^63 .. 2^63 - 1]. *)
Definition arange_length (start stop step : float) : option Z :=
  let next := stop - start in
  let val := next / step in
  if (val =? 0) && negb (next =? 0) then
    match Prim2SF val with
    | S754_zero true => Some 0%Z
    | _ => Some 1%Z
    end
  else
    match float_ceil val with
    | None => None
    | Some len =>
        if ((- 2 ^ 63 <=? len) && (len <=? 2 ^ 63 - 1))%Z then Some len
        else None
    end.

(** Modelled from the spec: [numpy.arange(start, stop, step)] is library
    code and not part of the repository.  As numpy computes it for floats,
    it has [arange_length] elements (none when that is not positive), those
    of [arange_item].  [None] stands for the exceptions: the division by a
    zero step, and those of the length.  The bound that the memory of the
    machine puts on the length is left out. *)
Definition arange (start stop step : float) : option (list float) :=
  if step =? 0 then None
  else
    match arange_length start stop step with
    | None => None
    | Some len => Some (map (arange_item start step) (seq 0 (Z.to_nat len)))
    end.

(** ** Particle *)

Definition WINDOW_WIDTH : float := 1024.
Definition WINDOW_HEIGHT : float := 720.

Module Particle.

Record t : Type := mk {
  pos : Vec2;
  rays : list Ray.t;
  ray_lines : list Vec2
}.

Section Library.

(** [arcade.Vec2.distance]: [distance p q] is [p.distance(q)]. *)
Variable distance : Vec2 -> Vec2 -> float.
(** [math.radians] and [arcade.Vec2.from_polar]. *)
Variable radians : float -> float.
Variable from_polar : float -> Vec2.

(** [Particle.__init__(self, deg_between_rays)]; [None] when [np.arange]
    raises. *)
Definition init (deg_between_rays : float) : option t :=
  let pos := mkVec2 (WINDOW_WIDTH / 2) (WINDOW_HEIGHT / 2) in
  match arange 0 360 deg_between_rays with
  | None => None
  | Some angles =>
      Some {| pos := pos;
              rays := map (fun a => Ray.init from_polar pos (radians a))
                          angles;
              ray_lines := [] |}
  end.

(** The body of the inner loop of [Particle.look], for one wall [b]:
    the state is [(record, closest)]. *)
Definition look_wall (self_pos : Vec2) (r : Ray.t)
    (st : float * option Vec2) (b : Boundry) : float * option Vec2 :=
  let '(record, closest) := st in
  match Ray.cast r b with
  | Some pt =>
      if Vec2_bool pt then
        let dist := distance self_pos pt in
        if dist <? record then (dist, Some pt)
        else (record, closest)
      else (record, closest)
  | None => (record, closest)
  end.

(** The inner loop of [Particle.look] for the ray [r], from
    [record = inf] and [closest = None]: the final [closest]. *)
Definition closest_of (self_pos : Vec2) (r : Ray.t) (bs : list Boundry)
    : option Vec2 :=
  snd (fold_left (look_wall self_pos r) bs (infinity, None)).

(** The body of the outer loop of [Particle.look], for one ray [r]. *)
Definition look_ray (bs : list Boundry) (self : t) (r : Ray.t) : t :=
  let closest := closest_of (pos self) r bs in
  if truthy closest then
    match closest with
    | Some c =>
        {| pos := pos self; rays := rays self;
           ray_lines := ray_lines self ++ [c] |}
    | None => self
    end
  else self.

(** [Particle.look(self, bs)] *)
Definition look (self : t) (bs : list Boundry) : t :=
  let cleared :=
    {| pos := pos self; rays := rays self; ray_lines := [] |} in
  fold_left (look_ray bs) (rays self) cleared.

End Library.

(** [Particle.move_to(self, pos)] *)
Definition move_to (self : t) (p : Vec2) : t :=
  {| pos := p;
     rays := map (fun ray => Ray.move_to ray p) (rays self);
     ray_lines := ray_lines self |}.

End Particle.

(** ** Particle.look and Ray.cast on a store of objects *)

(** The functions above take and return values.  Here the same code runs
    on a store, in which an assignment to an attribute of any object that
    the call can reach would show. *)
Module Store.

(** What a call [particle.look(bs)] can reach: the [Ray] and the [Boundry]
    objects, by address; the attributes [pos], [rays] (a list of addresses
    of [Ray] objects) and [ray_lines] of the particle; the list [bs] (a list
    of addresses of [Boundry] objects).  One object may be at several
    places of a list.  A [Vec2] is an immutable tuple: a value. *)
Record t : Type := mk {
  ray_at : nat -> Ray.t;
  boundry_at : nat -> Boundry;
  pos : Vec2;
  rays : list nat;
  ray_lines : list Vec2;
  bs : list nat
}.

(** [r.cast(b)] for the objects at the addresses [r] and [b]: the result
    and the store after the call.  The method reads attributes of the two
    objects and assigns to none. *)
Definition cast (r b : nat) (s : t) : option Vec2 * t :=
  let self := ray_at s r in
  let obj := boundry_at s b in
  (Ray.cast self obj, s).

Section Library.

Variable distance : Vec2 -> Vec2 -> float.

(** The body of the inner loop of [look]: the state is
    [(record, closest)] and the store. *)
Definition look_wall (r : nat) (st : float * option Vec2 * t) (b : nat)
    : float * option Vec2 * t :=
  let '(record, closest, s) := st in
  let '(pt, s) := cast r b s in
  match pt with
  | Some p =>
      if Vec2_bool p then
        let dist := distance (pos s) p in
        if dist <? record then (dist, Some p, s)
        else (record, closest, s)
      else (record, closest, s)
  | None => (record, closest, s)
  end.

(** The body of the outer loop of [look], for the ray at the address
    [r]. *)
Definition look_ray (s : t) (r : nat) : t :=
  let '(_, closest, s) :=
    fold_left (look_wall r) (bs s) (infinity, None, s) in
  if truthy closest then
    match closest with
    | Some c =>
        (* self.ray_lines.append(closest) *)
        {| ray_at := ray_at s; boundry_at := boundry_at s; pos := pos s;
           rays := rays s; ray_lines := ray_lines s ++ [c]; bs := bs s |}
    | None => s
    end
  else s.

(** [particle.look(bs)] on the store. *)
Definition look (s : t) : t :=
  (* self.ray_lines.clear() *)
  let s := {| ray_at := ray_at s; boundry_at := boundry_at s; pos := pos s;
              rays := rays s; ray_lines := []; bs := bs s |} in
  fold_left look_ray (rays s) s.

End Library.

(** The particle of the store and the walls of its list [bs], as
    values. *)
Definition particle (s : t) : Particle.t :=
  {| Particle.pos := pos s;
     Particle.rays := map (ray_at s) (rays s);
     Particle.ray_lines := ray_lines s |}.

Definition walls (s : t) : list Boundry := map (boundry_at s) (bs s).

End Store.

(** ** GameView *)

Module GameView.

Record view : Type := mk {
  num_walls : nat;
  ray_degs : float;
  t : float;
  walls : list Boundry;
  particle : Particle.t
}.

(** The four walls on the edges of the window, in the order in which
    [reset] appends them. *)
Definition edge_walls : list Boundry :=
  [ Boundry_init 0 0 0 WINDOW_HEIGHT;
    Boundry_init 0 WINDOW_HEIGHT WINDOW_WIDTH WINDOW_HEIGHT;
    Boundry_init WINDOW_WIDTH WINDOW_HEIGHT WINDOW_WIDTH 0;
    Boundry_init WINDOW_WIDTH 0 0 0 ].

Section Library.

Variable distance : Vec2 -> Vec2 -> float.
Variable radians : float -> float.
Variable from_polar : float -> Vec2.
Variable pnoise1 : float -> float -> float -> float.
(** [random.randint]: [randint k lo hi] is the result of the call number
    [k] of [reset], whose arguments are [lo] and [hi]. *)
Variable randint : nat -> float -> float -> float.

(** The wall appended by the round [w] of the loop of [reset]. *)
Definition random_wall (w : nat) : Boundry :=
  let x1 := randint (4 * w) 0 WINDOW_WIDTH in
  let y1 := randint (4 * w + 1) 0 WINDOW_HEIGHT in
  let x2 := randint (4 * w + 2) 0 WINDOW_WIDTH in
  let y2 := randint (4 * w + 3) 0 WINDOW_HEIGHT in
  Boundry_init x1 y1 x2 y2.

(** [GameView.reset(self)]: every attribute it reads is one it has set;
    [None] when [Particle(...)] raises. *)
Definition reset : option view :=
  let num_walls := 5%nat in
  let ray_degs := 1 in
  match Particle.init radians from_polar ray_degs with
  | None => None
  | Some p =>
      Some {| num_walls := num_walls;
              ray_degs := ray_degs;
              t := 0;
              walls := map random_wall (seq 0 num_walls) ++ edge_walls;
              particle := p |}
  end.

(** [GameView.on_update(self, delta_time)]; [noise] is called with its
    default [repeat=1024] and [base=0]; the float [0.01] is
    [0x1.47ae147ae147bp-7]. *)
Definition on_update (self : view) (delta_time : float) : view :=
  let t := t self + 0x1.47ae147ae147bp-7 in
  let moved :=
    Particle.move_to (particle self)
      (mkVec2 (noise pnoise1 t 1024 0 * WINDOW_WIDTH)
              (noise pnoise1 (t + 100) 1024 0 * WINDOW_HEIGHT)) in
  {| num_walls := num_walls self;
     ray_degs := ray_degs self;
     t := t;
     walls := walls self;
     particle := Particle.look distance moved (walls self) |}.

End Library.

End GameView.

(** ** Concrete values for the examples *)

(** A wall between two points. *)
Definition wall (x1 y1 x2 y2 : float) : Boundry := Boundry_init x1 y1 x2 y2.

(** A point. *)
Definition point (px py : float) : Vec2 := mkVec2 px py.

(** * Properties *)

(** ** The order of the floats *)

Lemma SFcompare_refl (f : spec_float) :
  SFcompare f f = Some Eq \/ SFcompare f f = None.
Proof.
  destruct f as [s|s| |s m e]; simpl; auto.
  - destruct s; auto.
  - rewrite Z.compare_refl.
    assert (H : PosDef.Pos.compare_cont Eq m m = Eq) by apply Pos.compare_refl.
    rewrite H. destruct s; auto.
Qed.

Lemma SFltb_irrefl (f : spec_float) : SFltb f f = false.
Proof.
  unfold SFltb. destruct (SFcompare_refl f) as [-> | ->]; reflexivity.
Qed.

(** The comparison of two finite floats that are not zero: by sign, then
    by exponent, then by mantissa. *)
Lemma finite_compare (s1 s2 : bool) (m1 m2 : positive) (e1 e2 : Z) :
  SFcompare (S754_finite s1 m1 e1) (S754_finite s2 m2 e2) = Some Lt <->
  match s1, s2 with
  | true, false => True
  | false, true => False
  | false, false => (e1 < e2)%Z \/ (e1 = e2 /\ (m1 < m2)%positive)
  | true, true => (e2 < e1)%Z \/ (e1 = e2 /\ (m2 < m1)%positive)
  end.
Proof.
  simpl. change (PosDef.Pos.compare_cont Eq) with Pos.compare.
  destruct s1, s2; try (split; [trivial | reflexivity]);
    try (split; [discriminate | contradiction]).
  - destruct (Z.compare_spec e1 e2).
    + rewrite Pos.compare_antisym.
      destruct (Pos.compare_spec m2 m1); simpl; split; try discriminate;
        try lia; trivial; intros _; right; auto.
    + split; [discriminate | lia].
    + split; [intros _; lia | trivial].
  - destruct (Z.compare_spec e1 e2).
    + destruct (Pos.compare_spec m1 m2); simpl; split; try discriminate;
        try lia; trivial; intros _; right; auto.
    + split; [intros _; lia | trivial].
    + split; [discriminate | lia].
Qed.

Lemma SFltb_finite (s1 s2 : bool) (m1 m2 : positive) (e1 e2 : Z) :
  SFltb (S754_finite s1 m1 e1) (S754_finite s2 m2 e2) = true <->
  SFcompare (S754_finite s1 m1 e1) (S754_finite s2 m2 e2) = Some Lt.
Proof.
  unfold SFltb.
  destruct (SFcompare (S754_finite s1 m1 e1) (S754_finite s2 m2 e2))
    as [[| |]|]; split; congruence.
Qed.

Lemma SFltb_trans (f g h : spec_float) :
  SFltb f g = true -> SFltb g h = true -> SFltb f h = true.
Proof.
  destruct f as [s1|s1| |s1 m1 e1], g as [s2|s2| |s2 m2 e2],
           h as [s3|s3| |s3 m3 e3];
    try (rewrite !SFltb_finite, !finite_compare;
         destruct s1, s2, s3; intros; try tauto; lia);
    unfold SFltb; cbn [SFcompare];
    try discriminate;
    try (destruct s1; discriminate);
    try (destruct s2; discriminate);
    try (destruct s1, s2; discriminate);
    try (destruct s1, s3; try discriminate; reflexivity);
    try (destruct s2, s3; try discriminate; reflexivity);
    try (destruct s1, s2, s3; try discriminate; reflexivity).
Qed.

(** [<] on floats is irreflexive and transitive, NaN included. *)
Lemma float_ltb_irrefl (p : float) : (p <? p) = false.
Proof. rewrite FloatAxioms.ltb_spec. apply SFltb_irrefl. Qed.

Lemma float_ltb_trans (p q r : float) :
  (p <? q) = true -> (q <? r) = true -> (p <? r) = true.
Proof. rewrite !FloatAxioms.ltb_spec. apply SFltb_trans. Qed.

(** [t == 0], for either zero, excludes [0 < t]. *)
Lemma float_eqb_0_not_pos (t : float) : (t =? 0) = true -> (0 <? t) = false.
Proof.
  rewrite FloatAxioms.eqb_spec, FloatAxioms.ltb_spec.
  change (Prim2SF 0) with (S754_zero false).
  unfold SFeqb, SFltb. destruct (Prim2SF t) as [s|s| |s m e]; cbn [SFcompare];
    try discriminate; try reflexivity; destruct s; discriminate.
Qed.

Lemma SFeqb_finite_eq (f : spec_float) (m : positive) (e : Z) :
  SFeqb f (S754_finite false m e) = true -> f = S754_finite false m e.
Proof.
  unfold SFeqb. destruct f as [s|s| |s m' e']; cbn [SFcompare];
    try discriminate; try (destruct s; discriminate).
  destruct s; [discriminate|].
  change (PosDef.Pos.compare_cont Eq) with Pos.compare.
  destruct (Z.compare_spec e' e); try discriminate. subst e'.
  destruct (Pos.compare_spec m' m); try discriminate.
  subst m'. reflexivity.
Qed.

(** [t == 1] holds of the float 1 only. *)
Lemma float_eqb_1 (t : float) : (t =? 1) = true -> t = 1.
Proof.
  rewrite FloatAxioms.eqb_spec. intros H. apply Prim2SF_inj.
  apply SFeqb_finite_eq in H. rewrite H. reflexivity.
Qed.

(** ** Ray.cast *)

(** [Ray.cast] in terms of its determinant and its two parameters. *)
Lemma cast_unfold (r : Ray.t) (w : Boundry) :
  Ray.cast r w =
  if Ray.det r w =? 0 then None
  else if (0 <? Ray.param_t r w) && (Ray.param_t r w <=? 1)
          && (0 <? Ray.param_u r w)
       then Some (Ray.wall_point w (Ray.param_t r w))
       else None.
Proof. reflexivity. Qed.

Lemma cast_some_iff (r : Ray.t) (w : Boundry) (p : Vec2) :
  Ray.cast r w = Some p <->
  (Ray.det r w =? 0) = false /\
  (0 <? Ray.param_t r w) = true /\ (Ray.param_t r w <=? 1) = true /\
  (0 <? Ray.param_u r w) = true /\
  p = Ray.wall_point w (Ray.param_t r w).
Proof.
  rewrite cast_unfold.
  destruct (Ray.det r w =? 0); [split; [discriminate | intros [H _]; discriminate H]|].
  destruct (0 <? Ray.param_t r w); simpl;
    [|split; [discriminate | intros (_ & H & _); discriminate H]].
  destruct (Ray.param_t r w <=? 1); simpl;
    [|split; [discriminate | intros (_ & _ & H & _); discriminate H]].
  destruct (0 <? Ray.param_u r w);
    [|split; [discriminate | intros (_ & _ & _ & H & _); discriminate H]].
  split.
  - intros [= <-]. auto.
  - intros (_ & _ & _ & _ & ->). reflexivity.
Qed.

(** C2, as the code has it.  [Ray.cast] returns a point exactly when the
    determinant is not zero (so that [t] and [u] are computed) and the
    floats [t] and [u] satisfy [0 < t <= 1] and [u > 0]; the point is then
    [a + t*(b-a)] as the floats compute it.  With [t == 1] (and [u > 0])
    the result is that point for [t = 1], and with [t == 0] there is no
    intersection. *)
Theorem cast_accepts_iff (r : Ray.t) (w : Boundry) :
  (forall p : Vec2,
      Ray.cast r w = Some p <->
      (Ray.det r w =? 0) = false /\
      (0 <? Ray.param_t r w) = true /\ (Ray.param_t r w <=? 1) = true /\
      (0 <? Ray.param_u r w) = true /\
      p = Ray.wall_point w (Ray.param_t r w)) /\
  ((Ray.det r w =? 0) = false -> (Ray.param_t r w =? 1) = true ->
   (0 <? Ray.param_u r w) = true ->
   Ray.cast r w = Some (Ray.wall_point w 1)) /\
  ((Ray.param_t r w =? 0) = true -> Ray.cast r w = None).
Proof.
  split; [|split].
  - intros p. apply cast_some_iff.
  - intros Hd Ht Hu. apply float_eqb_1 in Ht. apply cast_some_iff.
    rewrite Ht. auto.
  - intros Ht. apply float_eqb_0_not_pos in Ht.
    destruct (Ray.cast r w) as [p|] eqn:E; trivial.
    apply cast_some_iff in E. destruct E as (_ & H & _). congruence.
Qed.

(** The ray from (0,0) along +x meets the wall (10,-10)-(10,0) at its
    endpoint [b] and misses the wall (10,0)-(10,10), which it would meet at
    its endpoint [a]. *)
Lemma cast_accepts_iff_witness :
  Ray.cast (Ray.mk (point 0 0) (point 1 0)) (wall 10 (-10) 10 0)
  = Some (Ray.wall_point (wall 10 (-10) 10 0) 1) /\
  Ray.cast (Ray.mk (point 0 0) (point 1 0)) (wall 10 0 10 10) = None.
Proof.
  split.
  - apply (proj1 (proj2 (cast_accepts_iff
             (Ray.mk (point 0 0) (point 1 0)) (wall 10 (-10) 10 0))));
      vm_compute; reflexivity.
  - apply (proj2 (proj2 (cast_accepts_iff
             (Ray.mk (point 0 0) (point 1 0)) (wall 10 0 10 10)))).
    vm_compute. reflexivity.
Defined.

(** The wall (-4.7, 4.4)-(0.4, -1.2) and the ray from (0.4, -4.2) along
    +y, which runs through the end [b] of the wall.  The floats are those
    of these decimal literals. *)
Definition slanted_wall : Boundry :=
  wall (-0x1.2cccccccccccdp+2) 0x1.199999999999ap+2
       0x1.999999999999ap-2 (-0x1.3333333333333p+0).

Definition ray_up : Ray.t :=
  Ray.mk (point 0x1.999999999999ap-2 (-0x1.0cccccccccccdp+2)) (point 0 1).

(** The wall (0.1, 0.9)-(0.2, 0.2) and the ray from (0, 0) of direction
    (0.1, 0.1), which reaches the end [b] of the wall after two direction
    vectors. *)
Definition steep_wall : Boundry :=
  wall 0x1.999999999999ap-4 0x1.ccccccccccccdp-1
       0x1.999999999999ap-3 0x1.999999999999ap-3.

Definition diagonal_ray : Ray.t :=
  Ray.mk (point 0 0) (point 0x1.999999999999ap-4 0x1.999999999999ap-4).

(** Two values of an [option Vec2] differ when a test tells them apart. *)
Lemma option_Vec2_neq (o o' : option Vec2) (test : option Vec2 -> bool) :
  test o = true -> test o' = false -> o <> o'.
Proof. intros H H' E. rewrite E in H. congruence. Qed.

(** C2 fails as stated.  The ray [ray_up] is aimed at the end [b] of
    [slanted_wall] and its [t] is 1, but the point returned is
    (0.40000000000000036, -1.2000000000000002), not [b]: the floats
    [a + 1*(b-a)] are not those of [b].  The ray [diagonal_ray] is aimed at
    the end [b] of [steep_wall], but its [t] is 1.0000000000000004 and
    nothing is returned. *)
Lemma cast_end_b_not_returned :
  (x (b slanted_wall) = x (Ray.pos ray_up) /\
   Ray.param_t ray_up slanted_wall = 1 /\
   Ray.cast ray_up slanted_wall
   = Some (point 0x1.99999999999a0p-2 (-0x1.3333333333334p+0)) /\
   Ray.cast ray_up slanted_wall <> Some (b slanted_wall)) /\
  (b steep_wall
   = mkVec2 (x (Ray.pos diagonal_ray) + 2 * x (Ray.dir diagonal_ray))
            (y (Ray.pos diagonal_ray) + 2 * y (Ray.dir diagonal_ray)) /\
   Ray.param_t diagonal_ray steep_wall = 0x1.0000000000002p+0 /\
   Ray.cast diagonal_ray steep_wall = None).
Proof.
  split; [split; [|split; [|split]] | split; [|split]];
    try (vm_compute; reflexivity).
  apply (option_Vec2_neq _ _
           (fun o => match o with
                     | Some v => x v =? 0x1.99999999999a0p-2
                     | None => false
                     end)); vm_compute; reflexivity.
Qed.

(** C3. When the determinant is zero (the lines are parallel or
    coincident), [Ray.cast] returns [None]; [d == 0] holds of both
    zeros. *)
Theorem cast_parallel_none (r : Ray.t) (w : Boundry) :
  (Ray.det r w =? 0) = true -> Ray.cast r w = None.
Proof.
  intros Hd. rewrite cast_unfold, Hd. reflexivity.
Qed.

(** The ray from (0,0) along +x and the wall (5,0)-(10,0), which lies on
    the ray: the segments overlap and no intersection is reported. *)
Lemma cast_parallel_none_witness :
  (Ray.det (Ray.mk (point 0 0) (point 1 0)) (wall 5 0 10 0) =? 0) = true /\
  Ray.cast (Ray.mk (point 0 0) (point 1 0)) (wall 5 0 10 0) = None.
Proof.
  assert (H : (Ray.det (Ray.mk (point 0 0) (point 1 0)) (wall 5 0 10 0) =? 0)
              = true) by (vm_compute; reflexivity).
  split; [exact H|].
  exact (cast_parallel_none (Ray.mk (point 0 0) (point 1 0)) (wall 5 0 10 0) H).
Defined.




(** C9. From the origin (0,0) and against the wall (10,-10)-(10,10), the
    ray of direction (1,0) hits at (10,0), and the ray of direction (-1,0)
    hits nothing: its [u] is negative. *)
Theorem cast_scenario :
  Ray.cast (Ray.mk (point 0 0) (point 1 0)) (wall 10 (-10) 10 10)
  = Some (point 10 0) /\
  Ray.cast (Ray.mk (point 0 0) (point (-1) 0)) (wall 10 (-10) 10 10) = None /\
  (Ray.param_u (Ray.mk (point 0 0) (point (-1) 0)) (wall 10 (-10) 10 10) <? 0)
  = true.
Proof. repeat split; vm_compute; reflexivity. Qed.

(** ** Particle.look: the scan of one ray *)

Section Look.

Variable distance : Vec2 -> Vec2 -> float.

Local Abbreviation look_wall := (Particle.look_wall distance).
Local Abbreviation closest_of := (Particle.closest_of distance).
Local Abbreviation look_ray := (Particle.look_ray distance).
Local Abbreviation look := (Particle.look distance).

(** [r] hits the wall [w] at [p], and the scan takes the hit into account:
    [pt = r.cast(w)] passes the test [if pt:]. *)
Definition counted_hit (r : Ray.t) (w : Boundry) (p : Vec2) : Prop :=
  Ray.cast r w = Some p /\ Vec2_bool p = true.

Lemma look_wall_skip (o : Vec2) (r : Ray.t) (st : float * option Vec2)
    (w : Boundry) :
  truthy (Ray.cast r w) = false -> look_wall o r st w = st.
Proof.
  unfold Particle.look_wall. destruct st as [record closest].
  destruct (Ray.cast r w) as [p|]; simpl; [|reflexivity].
  intros ->. reflexivity.
Qed.

Lemma look_wall_hit (o : Vec2) (r : Ray.t) (record : float)
    (closest : option Vec2) (w : Boundry) (p : Vec2) :
  counted_hit r w p ->
  look_wall o r (record, closest) w =
  if distance o p <? record then (distance o p, Some p)
  else (record, closest).
Proof.
  intros [Hc Hb]. unfold Particle.look_wall. rewrite Hc, Hb. reflexivity.
Qed.

(** A wall either gives a hit that the scan counts, or is skipped. *)
Lemma counted_or_skipped (r : Ray.t) (w : Boundry) :
  (exists p, counted_hit r w p) \/ truthy (Ray.cast r w) = false.
Proof.
  unfold counted_hit. destruct (Ray.cast r w) as [p|]; simpl; auto.
  destruct (Vec2_bool p) eqn:E; eauto.
Qed.

Lemma counted_hit_unique (r : Ray.t) (w : Boundry) (p q : Vec2) :
  counted_hit r w p -> counted_hit r w q -> p = q.
Proof. intros [H _] [H' _]. congruence. Qed.

(** The two variables of the scan go together.  Either they are still
    [inf] and [None], and no counted hit of the walls seen so far is at a
    distance below [inf]; or [closest] is a counted hit of one of these
    walls, [record] is its distance, which is below [inf], and no counted
    hit of these walls is at a smaller distance. *)
Definition scan_inv (o : Vec2) (r : Ray.t) (seen : list Boundry)
    (st : float * option Vec2) : Prop :=
  match st with
  | (record, None) =>
      record = infinity /\
      (forall w q, In w seen -> counted_hit r w q ->
                   (distance o q <? infinity) = false)
  | (record, Some p) =>
      record = distance o p /\
      (exists w, In w seen /\ counted_hit r w p) /\
      (distance o p <? infinity) = true /\
      (forall w q, In w seen -> counted_hit r w q ->
                   (distance o q <? distance o p) = false)
  end.

Lemma not_below (p q r : float) :
  (p <? r) = false -> (q <? r) = true -> (p <? q) = false.
Proof.
  intros H Hq. destruct (p <? q) eqn:E; trivial.
  rewrite (float_ltb_trans _ _ _ E Hq) in H. discriminate H.
Qed.

Lemma scan_inv_step (o : Vec2) (r : Ray.t) (seen : list Boundry)
    (st : float * option Vec2) (w : Boundry) :
  scan_inv o r seen st -> scan_inv o r (seen ++ [w]) (look_wall o r st w).
Proof.
  intros Hinv. destruct st as [record closest].
  destruct (counted_or_skipped r w) as [[p Hp]|Hskip].
  - rewrite (look_wall_hit _ _ _ _ _ _ Hp).
    assert (Hlast : forall w1 q, In w1 (seen ++ [w]) -> counted_hit r w1 q ->
                      In w1 seen \/ q = p).
    { intros w1 q Hin Hq. apply in_app_or in Hin.
      destruct Hin as [Hin|[<-|[]]]; [left; exact Hin | right].
      exact (counted_hit_unique _ _ _ _ Hq Hp). }
    destruct closest as [c|]; simpl in Hinv.
    + destruct Hinv as (-> & (w0 & Hw0 & Hc0) & Hfin & Hmin).
      destruct (distance o p <? distance o c) eqn:El; simpl.
      * split; [reflexivity | split; [|split]].
        -- exists w. split; [apply in_or_app; right; left; reflexivity | exact Hp].
        -- exact (float_ltb_trans _ _ _ El Hfin).
        -- intros w1 q Hin Hq. destruct (Hlast w1 q Hin Hq) as [Hs| ->].
           ++ exact (not_below _ _ _ (Hmin w1 q Hs Hq) El).
           ++ apply float_ltb_irrefl.
      * split; [reflexivity | split; [|split]]; trivial.
        -- exists w0. split; [apply in_or_app; left; exact Hw0 | exact Hc0].
        -- intros w1 q Hin Hq. destruct (Hlast w1 q Hin Hq) as [Hs| ->]; eauto.
    + destruct Hinv as (-> & Hnone).
      destruct (distance o p <? infinity) eqn:El; simpl.
      * split; [reflexivity | split; [|split]]; trivial.
        -- exists w. split; [apply in_or_app; right; left; reflexivity | exact Hp].
        -- intros w1 q Hin Hq. destruct (Hlast w1 q Hin Hq) as [Hs| ->].
           ++ exact (not_below _ _ _ (Hnone w1 q Hs Hq) El).
           ++ apply float_ltb_irrefl.
      * split; [reflexivity|].
        intros w1 q Hin Hq. destruct (Hlast w1 q Hin Hq) as [Hs| ->]; eauto.
  - rewrite look_wall_skip by exact Hskip.
    assert (Hlast : forall w1 q, In w1 (seen ++ [w]) -> counted_hit r w1 q ->
                      In w1 seen).
    { intros w1 q Hin [Hq Hb]. apply in_app_or in Hin.
      destruct Hin as [Hin|[<-|[]]]; [exact Hin | exfalso].
      rewrite Hq in Hskip. simpl in Hskip. congruence. }
    destruct closest as [c|]; simpl in *.
    + destruct Hinv as (-> & (w0 & Hw0 & Hc0) & Hfin & Hmin).
      split; [reflexivity | split; [|split]]; trivial.
      * exists w0. split; [apply in_or_app; left; exact Hw0 | exact Hc0].
      * intros w1 q Hin Hq. eauto.
    + destruct Hinv as (-> & Hnone). split; [reflexivity|].
      intros w1 q Hin Hq. eauto.
Qed.

Lemma scan_inv_fold (o : Vec2) (r : Ray.t) (bs seen : list Boundry)
    (st : float * option Vec2) :
  scan_inv o r seen st ->
  scan_inv o r (seen ++ bs) (fold_left (look_wall o r) bs st).
Proof.
  revert seen st. induction bs as [|w bs IH]; intros seen st Hinv; simpl.
  - rewrite app_nil_r. exact Hinv.
  - replace (seen ++ w :: bs) with ((seen ++ [w]) ++ bs)
      by (rewrite <- app_assoc; reflexivity).
    apply IH. apply scan_inv_step. exact Hinv.
Qed.

Lemma scan_inv_final (o : Vec2) (r : Ray.t) (bs : list Boundry) :
  scan_inv o r bs (fold_left (look_wall o r) bs (infinity, None)).
Proof.
  apply (scan_inv_fold o r bs [] (infinity, None)). simpl.
  split; [reflexivity | intros w q []].
Qed.

(** What the scan of one ray returns. *)
Lemma closest_of_some (o : Vec2) (r : Ray.t) (bs : list Boundry) (c : Vec2) :
  closest_of o r bs = Some c ->
  (exists w, In w bs /\ counted_hit r w c) /\
  (distance o c <? infinity) = true /\
  (forall w q, In w bs -> counted_hit r w q ->
               (distance o q <? distance o c) = false).
Proof.
  unfold Particle.closest_of. intros H.
  pose proof (scan_inv_final o r bs) as Hinv.
  destruct (fold_left (look_wall o r) bs (infinity, None)) as [d [p|]];
    simpl in *; [|discriminate].
  injection H as ->. destruct Hinv as (_ & Hex & Hfin & Hmin). auto.
Qed.

Lemma closest_of_none (o : Vec2) (r : Ray.t) (bs : list Boundry) :
  closest_of o r bs = None <->
  (forall w q, In w bs -> counted_hit r w q ->
               (distance o q <? infinity) = false).
Proof.
  unfold Particle.closest_of.
  pose proof (scan_inv_final o r bs) as Hinv.
  destruct (fold_left (look_wall o r) bs (infinity, None)) as [d [p|]];
    simpl in *.
  - destruct Hinv as (_ & (w & Hw & Hc) & Hfin & _). split; [discriminate|].
    intros H. rewrite (H w p Hw Hc) in Hfin. discriminate Hfin.
  - destruct Hinv as (_ & Hnone). split; auto.
Qed.

Lemma closest_of_truthy (o : Vec2) (r : Ray.t) (bs : list Boundry) :
  truthy (closest_of o r bs) = true \/ closest_of o r bs = None.
Proof.
  destruct (closest_of o r bs) as [c|] eqn:E; [left | right; reflexivity].
  apply closest_of_some in E. destruct E as ((w & _ & _ & Hb) & _). exact Hb.
Qed.

(** A ray that no wall stops records nothing. *)
Lemma closest_of_no_cast (o : Vec2) (r : Ray.t) (bs : list Boundry) :
  (forall w, In w bs -> Ray.cast r w = None) -> closest_of o r bs = None.
Proof.
  intros H. apply closest_of_none. intros w q Hw [Hq _].
  rewrite (H w Hw) in Hq. discriminate Hq.
Qed.

(** Walls after the one whose hit is recorded do not replace it unless
    they are hit strictly nearer. *)
Lemma scan_keeps (o : Vec2) (r : Ray.t) (bs : list Boundry) (p : Vec2) :
  (forall w q, In w bs -> counted_hit r w q ->
               (distance o q <? distance o p) = false) ->
  fold_left (look_wall o r) bs (distance o p, Some p)
  = (distance o p, Some p).
Proof.
  induction bs as [|w bs IH]; intros H; cbn [fold_left]; [reflexivity|].
  assert (Hw : look_wall o r (distance o p, Some p) w
               = (distance o p, Some p)).
  { destruct (counted_or_skipped r w) as [[q Hq]|Hskip].
    - rewrite (look_wall_hit o r _ _ w q Hq).
      rewrite (H w q (or_introl eq_refl) Hq). reflexivity.
    - apply look_wall_skip. exact Hskip. }
  rewrite Hw. apply IH. intros w' q Hin. apply H. right. exact Hin.
Qed.

(** The wall whose counted hit is strictly nearer than the counted hits of
    the walls before it, and at least as near as those of the walls after
    it, is the one recorded. *)
Lemma closest_of_first_nearest (o : Vec2) (r : Ray.t)
    (before after : list Boundry) (w : Boundry) (p : Vec2) :
  counted_hit r w p ->
  (distance o p <? infinity) = true ->
  (forall w' q, In w' before -> counted_hit r w' q ->
                (distance o p <? distance o q) = true) ->
  (forall w' q, In w' after -> counted_hit r w' q ->
                (distance o q <? distance o p) = false) ->
  closest_of o r (before ++ w :: after) = Some p.
Proof.
  intros Hp Hfin Hbefore Hafter. unfold Particle.closest_of.
  rewrite fold_left_app. cbn [fold_left].
  pose proof (scan_inv_final o r before) as Hinv.
  destruct (fold_left (look_wall o r) before (infinity, None)) as [d [c|]];
    simpl in Hinv.
  - destruct Hinv as (-> & (w0 & Hw0 & Hc0) & _).
    rewrite (look_wall_hit _ _ _ _ _ _ Hp), (Hbefore w0 c Hw0 Hc0).
    rewrite scan_keeps by exact Hafter. reflexivity.
  - destruct Hinv as (-> & _).
    rewrite (look_wall_hit _ _ _ _ _ _ Hp), Hfin.
    rewrite scan_keeps by exact Hafter. reflexivity.
Qed.

(** A ray whose counted hit on the wall [w] of [bs] is strictly nearer than
    its counted hits on the other walls records that hit, wherever [w]
    stands in [bs]. *)
Lemma closest_of_strictly_nearest (o : Vec2) (r : Ray.t) (bs : list Boundry)
    (w : Boundry) (p : Vec2) :
  In w bs -> counted_hit r w p ->
  (distance o p <? infinity) = true ->
  (forall w' q, In w' bs -> counted_hit r w' q ->
                q = p \/ (distance o p <? distance o q) = true) ->
  closest_of o r bs = Some p.
Proof.
  intros Hin Hp Hfin Hothers.
  destruct (closest_of o r bs) as [c|] eqn:E.
  - apply closest_of_some in E. destruct E as ((w0 & Hw0 & Hc) & _ & Hmin).
    destruct (Hothers w0 c Hw0 Hc) as [->|Hlt]; [reflexivity|].
    rewrite (Hmin w p Hin Hp) in Hlt. discriminate Hlt.
  - rewrite (proj1 (closest_of_none o r bs) E w p Hin Hp) in Hfin.
    discriminate Hfin.
Qed.

(** ** Particle.look: the whole fan *)

(** What one ray adds to [ray_lines]. *)
Definition recorded (o : Vec2) (bs : list Boundry) (r : Ray.t) : list Vec2 :=
  match closest_of o r bs with
  | Some c => [c]
  | None => []
  end.

Lemma look_ray_frame (bs : list Boundry) (s : Particle.t) (r : Ray.t) :
  Particle.pos (look_ray bs s r) = Particle.pos s /\
  Particle.rays (look_ray bs s r) = Particle.rays s /\
  Particle.ray_lines (look_ray bs s r)
  = Particle.ray_lines s ++ recorded (Particle.pos s) bs r.
Proof.
  unfold Particle.look_ray, recorded.
  destruct (closest_of_truthy (Particle.pos s) r bs) as [H|H].
  - rewrite H. destruct (closest_of (Particle.pos s) r bs); [|discriminate].
    simpl. auto.
  - rewrite H. simpl. rewrite app_nil_r. auto.
Qed.

Lemma look_fold_frame (bs : list Boundry) (rs : list Ray.t) (s : Particle.t) :
  let s' := fold_left (look_ray bs) rs s in
  Particle.pos s' = Particle.pos s /\
  Particle.rays s' = Particle.rays s /\
  Particle.ray_lines s'
  = Particle.ray_lines s ++ flat_map (recorded (Particle.pos s) bs) rs.
Proof.
  revert s. induction rs as [|r rs IH]; intros s; simpl.
  - rewrite app_nil_r. auto.
  - destruct (look_ray_frame bs s r) as (Hp & Hr & Hl).
    destruct (IH (look_ray bs s r)) as (Hp' & Hr' & Hl').
    rewrite Hp', Hr', Hl', Hp, Hr, Hl, app_assoc. auto.
Qed.

Lemma look_spec (self : Particle.t) (bs : list Boundry) :
  Particle.pos (look self bs) = Particle.pos self /\
  Particle.rays (look self bs) = Particle.rays self /\
  Particle.ray_lines (look self bs)
  = flat_map (recorded (Particle.pos self) bs) (Particle.rays self).
Proof.
  unfold Particle.look.
  pose proof (look_fold_frame bs (Particle.rays self)
    {| Particle.pos := Particle.pos self; Particle.rays := Particle.rays self;
       Particle.ray_lines := [] |}) as H.
  simpl in H. exact H.
Qed.

Lemma recorded_length (o : Vec2) (bs : list Boundry) (rs : list Ray.t) :
  (length (flat_map (recorded o bs) rs) <= length rs)%nat.
Proof.
  induction rs as [|r rs IH]; simpl; [lia|].
  rewrite length_app. unfold recorded at 1.
  destruct (closest_of o r bs); simpl; lia.
Qed.

Lemma look_single (o : Vec2) (r : Ray.t) (l : list Vec2) (bs : list Boundry) :
  Particle.ray_lines (look (Particle.mk o [r] l) bs) = recorded o bs r.
Proof.
  rewrite (proj2 (proj2 (look_spec _ bs))). simpl. apply app_nil_r.
Qed.

End Look.

Section LookClaims.

Variable distance : Vec2 -> Vec2 -> float.

Local Abbreviation closest_of := (Particle.closest_of distance).
Local Abbreviation look := (Particle.look distance).

(** C1, as the code has it.  After [look], [ray_lines] holds, in the order
    of the fan, the recorded nearest hit of each ray that recorded one and
    nothing for the other rays: it has at most as many entries as there
    are rays, and a ray that strikes no wall adds no entry. *)
Theorem look_ray_lines (self : Particle.t) (bs : list Boundry) :
  Particle.ray_lines (look self bs)
  = flat_map (recorded distance (Particle.pos self) bs) (Particle.rays self) /\
  (length (Particle.ray_lines (look self bs))
   <= length (Particle.rays (look self bs)))%nat /\
  (forall r : Ray.t,
      (forall w, In w bs -> Ray.cast r w = None) ->
      recorded distance (Particle.pos self) bs r = []).
Proof.
  destruct (look_spec distance self bs) as (_ & Hr & Hl).
  split; [exact Hl | split].
  - rewrite Hl, Hr. apply recorded_length.
  - intros r Hnone. unfold recorded.
    rewrite (closest_of_no_cast distance _ r bs Hnone). reflexivity.
Qed.

End LookClaims.

(** ** Particle.move_to *)

(** C8. [move_to p] sets the observer position to [p] and the origin of
    every ray of the fan to [p]; the directions, their order and their
    number are unchanged. *)
Theorem move_to_spec (self : Particle.t) (p : Vec2) :
  Particle.pos (Particle.move_to self p) = p /\
  (forall r, In r (Particle.rays (Particle.move_to self p)) -> Ray.pos r = p) /\
  map Ray.dir (Particle.rays (Particle.move_to self p))
  = map Ray.dir (Particle.rays self) /\
  length (Particle.rays (Particle.move_to self p))
  = length (Particle.rays self).
Proof.
  unfold Particle.move_to; simpl. repeat split.
  - intros r Hr. apply in_map_iff in Hr. destruct Hr as (r0 & <- & _).
    reflexivity.
  - rewrite map_map. reflexivity.
  - apply length_map.
Qed.

(** ** The frame of Ray.cast and Particle.look *)

Lemma Particle_eq (s s' : Particle.t) :
  Particle.pos s = Particle.pos s' ->
  Particle.rays s = Particle.rays s' ->
  Particle.ray_lines s = Particle.ray_lines s' ->
  s = s'.
Proof. destruct s, s'; simpl. congruence. Qed.

(** What a call leaves as it was when it changes [ray_lines] at most. *)
Definition same_frame (s s' : Store.t) : Prop :=
  Store.ray_at s' = Store.ray_at s /\
  Store.boundry_at s' = Store.boundry_at s /\
  Store.pos s' = Store.pos s /\
  Store.rays s' = Store.rays s /\
  Store.bs s' = Store.bs s.

Section StoreLook.

Variable distance : Vec2 -> Vec2 -> float.

Lemma store_look_wall (r : nat) (st : float * option Vec2) (s : Store.t)
    (b : nat) :
  Store.look_wall distance r (st, s) b
  = (Particle.look_wall distance (Store.pos s) (Store.ray_at s r) st
       (Store.boundry_at s b), s).
Proof.
  destruct st as [record closest].
  unfold Store.look_wall, Particle.look_wall, Store.cast.
  destruct (Ray.cast (Store.ray_at s r) (Store.boundry_at s b)) as [p|];
    [|reflexivity].
  destruct (Vec2_bool p); [|reflexivity].
  destruct (distance (Store.pos s) p <? record); reflexivity.
Qed.

Lemma store_scan (r : nat) (bs : list nat) (st : float * option Vec2)
    (s : Store.t) :
  fold_left (Store.look_wall distance r) bs (st, s)
  = (fold_left (Particle.look_wall distance (Store.pos s) (Store.ray_at s r))
       (map (Store.boundry_at s) bs) st, s).
Proof.
  revert st. induction bs as [|b bs IH]; intros st; cbn [fold_left map];
    [reflexivity|].
  rewrite store_look_wall. apply IH.
Qed.

Lemma store_look_ray (s : Store.t) (r : nat) :
  same_frame s (Store.look_ray distance s r) /\
  Store.ray_lines (Store.look_ray distance s r)
  = Particle.ray_lines
      (Particle.look_ray distance (Store.walls s) (Store.particle s)
         (Store.ray_at s r)).
Proof.
  unfold Store.look_ray, Particle.look_ray, Particle.closest_of, same_frame.
  rewrite store_scan. fold (Store.walls s). cbn [Store.particle Particle.pos].
  destruct (fold_left _ (Store.walls s) (infinity, None)) as [d closest].
  cbn [snd]. destruct (truthy closest); [|auto 7].
  destruct closest as [c|]; simpl; auto 7.
Qed.

Lemma store_look_fold (rs : list nat) (s : Store.t) :
  same_frame s (fold_left (Store.look_ray distance) rs s) /\
  Store.ray_lines (fold_left (Store.look_ray distance) rs s)
  = Particle.ray_lines
      (fold_left (Particle.look_ray distance (Store.walls s))
         (map (Store.ray_at s) rs) (Store.particle s)).
Proof.
  revert s. induction rs as [|r rs IH]; intros s; simpl.
  - unfold same_frame. auto 7.
  - destruct (store_look_ray s r) as ((Hr & Hb & Hp & Hrs & Hbs) & Hl).
    destruct (IH (Store.look_ray distance s r))
      as ((Hr' & Hb' & Hp' & Hrs' & Hbs') & Hl').
    split; [unfold same_frame; repeat split; congruence|].
    rewrite Hl'. f_equal. f_equal.
    + unfold Store.walls. rewrite Hb, Hbs. reflexivity.
    + rewrite Hr. reflexivity.
    + destruct (look_ray_frame distance (Store.walls s) (Store.particle s)
                  (Store.ray_at s r)) as (Ep & Er & _).
      apply Particle_eq.
      * rewrite Ep. exact Hp.
      * rewrite Er. cbn [Store.particle Particle.rays]. rewrite Hr, Hrs.
        reflexivity.
      * exact Hl.
Qed.

(** [look] on the store is [Particle.look] on the values. *)
Lemma store_look (s : Store.t) :
  same_frame s (Store.look distance s) /\
  Store.ray_lines (Store.look distance s)
  = Particle.ray_lines
      (Particle.look distance (Store.particle s) (Store.walls s)).
Proof.
  unfold Store.look, Particle.look.
  set (s0 := {| Store.ray_at := Store.ray_at s;
                Store.boundry_at := Store.boundry_at s;
                Store.pos := Store.pos s; Store.rays := Store.rays s;
                Store.ray_lines := []; Store.bs := Store.bs s |}).
  cbn [Store.rays].
  destruct (store_look_fold (Store.rays s) s0) as (Hf & Hl).
  split; [exact Hf | exact Hl].
Qed.

(** C10. [Ray.cast] and [Particle.look] read their geometric inputs and
    write none of them.  On the store, [r.cast(b)] leaves every object as
    it was: the origin and the direction of the ray, the ends of the wall,
    and all the rest.  [particle.look(bs)] changes [ray_lines] only: every
    [Ray] object (so its origin and direction), every [Boundry] object, the
    observer position, the list of rays and the list [bs] of walls are as
    before the call; and the new [ray_lines] is the one that [Particle.look]
    computes on the values, which keeps the position and the fan too. *)
Theorem look_frame :
  (forall (s : Store.t) (r b : nat),
      snd (Store.cast r b s) = s /\
      fst (Store.cast r b s)
      = Ray.cast (Store.ray_at s r) (Store.boundry_at s b)) /\
  (forall s : Store.t,
      Store.ray_at (Store.look distance s) = Store.ray_at s /\
      Store.boundry_at (Store.look distance s) = Store.boundry_at s /\
      Store.pos (Store.look distance s) = Store.pos s /\
      Store.rays (Store.look distance s) = Store.rays s /\
      Store.bs (Store.look distance s) = Store.bs s /\
      Store.ray_lines (Store.look distance s)
      = Particle.ray_lines
          (Particle.look distance (Store.particle s) (Store.walls s))) /\
  (forall (self : Particle.t) (bs : list Boundry),
      Particle.pos (Particle.look distance self bs) = Particle.pos self /\
      Particle.rays (Particle.look distance self bs) = Particle.rays self /\
      map Ray.pos (Particle.rays (Particle.look distance self bs))
      = map Ray.pos (Particle.rays self) /\
      map Ray.dir (Particle.rays (Particle.look distance self bs))
      = map Ray.dir (Particle.rays self)).
Proof.
  split; [|split].
  - intros s r b. split; reflexivity.
  - intros s. destruct (store_look s) as ((Hr & Hb & Hp & Hrs & Hbs) & Hl).
    auto 7.
  - intros self bs. destruct (look_spec distance self bs) as (Hp & Hr & _).
    rewrite Hr. auto.
Qed.

End StoreLook.

(** ** Particle.look on concrete fans *)

(** An observer at the origin with two rays, along +x and along -x. *)
Definition two_rays : Particle.t :=
  Particle.mk (point 0 0)
    [Ray.mk (point 0 0) (point 1 0); Ray.mk (point 0 0) (point (-1) 0)] [].

(** C1 fails as stated.  Against the single wall (10,-10)-(10,10) the ray
    along -x strikes nothing: [look] leaves one entry for two rays, and no
    [None] stands for the ray without a hit. *)
Lemma look_ray_lines_not_aligned :
  Particle.ray_lines
    (Particle.look Vec2_distance two_rays [wall 10 (-10) 10 10])
  = [point 10 0] /\
  length (Particle.rays
    (Particle.look Vec2_distance two_rays [wall 10 (-10) 10 10])) = 2%nat.
Proof. split; vm_compute; reflexivity. Qed.

(** An observer at (-5,0) with one ray along +x, which crosses the
    coordinate origin. *)
Definition ray_through_origin : Ray.t := Ray.mk (point (-5) 0) (point 1 0).

Definition observer_left : Particle.t :=
  Particle.mk (point (-5) 0) [ray_through_origin] [].

(** C5 at a failing input.  The ray hits the wall (0,-10)-(0,10) at (0,0),
    at distance 5, and the wall (10,-10)-(10,10) at (10,0), at distance 15.
    The nearer hit is the zero vector, which [if pt:] takes for no hit:
    in both orders of the walls [look] records the farther point (10,0),
    whatever the distance function (or nothing, for a distance function
    that puts (10,0) at no distance below [inf]). *)
Theorem look_drops_nearer_hit_at_origin (distance : Vec2 -> Vec2 -> float) :
  Ray.cast ray_through_origin (wall 0 (-10) 0 10) = Some (point 0 0) /\
  Ray.cast ray_through_origin (wall 10 (-10) 10 10) = Some (point 10 0) /\
  Vec2_distance (point (-5) 0) (point 0 0) = 5 /\
  Vec2_distance (point (-5) 0) (point 10 0) = 15 /\
  Particle.ray_lines
    (Particle.look distance observer_left
       [wall 0 (-10) 0 10; wall 10 (-10) 10 10])
  = (if distance (point (-5) 0) (point 10 0) <? infinity
     then [point 10 0] else []) /\
  Particle.ray_lines
    (Particle.look distance observer_left
       [wall 10 (-10) 10 10; wall 0 (-10) 0 10])
  = (if distance (point (-5) 0) (point 10 0) <? infinity
     then [point 10 0] else []) /\
  Particle.ray_lines
    (Particle.look Vec2_distance observer_left
       [wall 0 (-10) 0 10; wall 10 (-10) 10 10]) = [point 10 0] /\
  Particle.ray_lines
    (Particle.look Vec2_distance observer_left
       [wall 10 (-10) 10 10; wall 0 (-10) 0 10]) = [point 10 0].
Proof.
  assert (Hnear : Ray.cast ray_through_origin (wall 0 (-10) 0 10)
                  = Some (point 0 0)) by (vm_compute; reflexivity).
  assert (Hfar : Ray.cast ray_through_origin (wall 10 (-10) 10 10)
                 = Some (point 10 0)) by (vm_compute; reflexivity).
  assert (Hten : Vec2_bool (point 10 0) = true) by (vm_compute; reflexivity).
  assert (Hskip : truthy (Ray.cast ray_through_origin (wall 0 (-10) 0 10))
                  = false) by (rewrite Hnear; vm_compute; reflexivity).
  split; [exact Hnear | split; [exact Hfar | ]].
  split; [vm_compute; reflexivity | split; [vm_compute; reflexivity | ]].
  split; [|split; [|split; vm_compute; reflexivity]].
  - unfold observer_left. rewrite look_single.
    unfold recorded, Particle.closest_of.
    cbn [fold_left].
    rewrite (look_wall_skip distance _ _ _ _ Hskip).
    rewrite (look_wall_hit distance _ _ _ _ _ _ (conj Hfar Hten)).
    destruct (distance (point (-5) 0) (point 10 0) <? infinity); reflexivity.
  - unfold observer_left. rewrite look_single.
    unfold recorded, Particle.closest_of.
    cbn [fold_left].
    rewrite (look_wall_hit distance _ _ _ _ _ _ (conj Hfar Hten)).
    destruct (distance (point (-5) 0) (point 10 0) <? infinity);
      rewrite (look_wall_skip distance _ _ _ _ Hskip); reflexivity.
Qed.

(** C6 at a failing input.  The walls (0,-10)-(0,10) and (-10,-10)-(10,10)
    are both hit at (0,0), at the same distance 5.  Both hits are the zero
    vector, which [if pt:] takes for no hit: [look] records nothing, not
    the hit of the first wall. *)
Theorem look_drops_tied_hits_at_origin (distance : Vec2 -> Vec2 -> float) :
  Ray.cast ray_through_origin (wall 0 (-10) 0 10) = Some (point 0 0) /\
  Ray.cast ray_through_origin (wall (-10) (-10) 10 10) = Some (point 0 0) /\
  Particle.ray_lines
    (Particle.look distance observer_left
       [wall 0 (-10) 0 10; wall (-10) (-10) 10 10]) = [].
Proof.
  assert (H1 : Ray.cast ray_through_origin (wall 0 (-10) 0 10)
               = Some (point 0 0)) by (vm_compute; reflexivity).
  assert (H2 : Ray.cast ray_through_origin (wall (-10) (-10) 10 10)
               = Some (point 0 0)) by (vm_compute; reflexivity).
  split; [exact H1 | split; [exact H2 | ]].
  unfold observer_left. rewrite look_single.
  unfold recorded, Particle.closest_of.
  cbn [fold_left].
  rewrite (look_wall_skip distance _ _ _ (wall 0 (-10) 0 10))
    by (rewrite H1; vm_compute; reflexivity).
  rewrite (look_wall_skip distance _ _ _ (wall (-10) (-10) 10 10))
    by (rewrite H2; vm_compute; reflexivity).
  reflexivity.
Qed.

(** ** Particle.__init__: the fan *)

(** A positive float is not zero. *)
Lemma float_pos_neq_0 (p : float) : (0 <? p) = true -> (p =? 0) = false.
Proof.
  rewrite FloatAxioms.eqb_spec, FloatAxioms.ltb_spec.
  change (Prim2SF 0) with (S754_zero false).
  unfold SFeqb, SFltb. destruct (Prim2SF p) as [s|s| |s m e]; cbn [SFcompare];
    try discriminate; try reflexivity; destruct s; try discriminate;
    reflexivity.
Qed.

(** A float whose ceiling is positive is not zero. *)
Lemma float_ceil_pos_neq_0 (p : float) (n : Z) :
  float_ceil p = Some n -> (0 < n)%Z -> (p =? 0) = false.
Proof.
  unfold float_ceil. rewrite FloatAxioms.eqb_spec.
  change (Prim2SF 0) with (S754_zero false). unfold SFeqb.
  destruct (Prim2SF p) as [s|s| |s m e]; cbn [SFcompare]; try discriminate.
  - intros [= <-]. lia.
  - destruct s; reflexivity.
Qed.

Lemma arange_fan (step : float) (n : Z) :
  (0 <? step) = true ->
  float_ceil (360 / step) = Some n ->
  (0 < n <= 2 ^ 63 - 1)%Z ->
  arange 0 360 step = Some (map (arange_item 0 step) (seq 0 (Z.to_nat n))).
Proof.
  intros Hpos Hceil [Hmin Hmax]. unfold arange, arange_length.
  rewrite (float_pos_neq_0 _ Hpos).
  change (360 - 0) with 360.
  rewrite (float_ceil_pos_neq_0 _ n Hceil Hmin), Hceil. cbn [andb].
  replace ((- 2 ^ 63 <=? n)%Z) with true by (symmetry; apply Z.leb_le; lia).
  replace ((n <=? 2 ^ 63 - 1)%Z) with true by (symmetry; apply Z.leb_le; lia).
  reflexivity.
Qed.

(** C7, as the code has it.  For a float step [0 < step] for which
    [np.arange] returns, [Particle.__init__] builds as many rays as the
    ceiling [n] of the float [360/step], which is positive and an index;
    the ray of index [i] has the initial observer position for origin and
    the direction of the angle that [np.arange] computes, [0], [0 + step],
    and [0 + i*step] in floats from the third on. *)
Theorem init_fan (radians : float -> float) (from_polar : float -> Vec2)
    (step : float) (n : Z) :
  (0 <? step) = true ->
  float_ceil (360 / step) = Some n ->
  (0 < n <= 2 ^ 63 - 1)%Z ->
  exists self : Particle.t,
    Particle.init radians from_polar step = Some self /\
    Particle.pos self = mkVec2 (WINDOW_WIDTH / 2) (WINDOW_HEIGHT / 2) /\
    length (Particle.rays self) = Z.to_nat n /\
    (forall i : nat,
        (i < Z.to_nat n)%nat ->
        nth_error (Particle.rays self) i
        = Some (Ray.mk (Particle.pos self)
                       (from_polar (radians (arange_item 0 step i))))) /\
    Particle.ray_lines self = [].
Proof.
  intros Hpos Hceil Hmax. unfold Particle.init.
  rewrite (arange_fan step n Hpos Hceil Hmax).
  eexists. split; [reflexivity|]. cbn [Particle.pos Particle.rays Particle.ray_lines].
  split; [reflexivity | split; [|split; [|reflexivity]]].
  - rewrite !length_map, length_seq. reflexivity.
  - intros i Hi. rewrite map_map, nth_error_map, nth_error_seq.
    apply Nat.ltb_lt in Hi. rewrite Hi. reflexivity.
Qed.

(** The fan of the program, one ray per degree: 360 rays. *)
Lemma init_fan_witness :
  exists self : Particle.t,
    Particle.init (fun d => d) (fun d => mkVec2 d 0) 1 = Some self /\
    Particle.pos self = mkVec2 (WINDOW_WIDTH / 2) (WINDOW_HEIGHT / 2) /\
    length (Particle.rays self) = Z.to_nat 360 /\
    (forall i : nat,
        (i < Z.to_nat 360)%nat ->
        nth_error (Particle.rays self) i
        = Some (Ray.mk (Particle.pos self)
                       (mkVec2 (arange_item 0 1 i) 0))) /\
    Particle.ray_lines self = [].
Proof.
  apply (init_fan (fun d => d) (fun d => mkVec2 d 0) 1 360).
  - vm_compute. reflexivity.
  - vm_compute. reflexivity.
  - lia.
Defined.

(** The steps 6.545454545454545 and 32.72727272727273, as floats. *)
Definition step_55 : float := 0x1.a2e8ba2e8ba2ep+2.
Definition step_11 : float := 0x1.05d1745d1745dp+5.

(** C7 fails as stated.  For the step 6.545454545454545 the float
    [360/step] is 55.00000000000001: there are 56 rays, and the angle of
    the last one is 360, not below 360.  For the step 32.72727272727273 the
    float [360/step] is 11: there are 11 rays, although eleven times the
    step is below 360 ([step] is [m * 2^(-47)] with [11 * m < 360 * 2^47]),
    so that the ceiling of the quotient is 12. *)
Lemma init_fan_rounding :
  (360 / step_55 = 0x1.b800000000001p+5 /\
   forall (radians : float -> float) (from_polar : float -> Vec2),
   exists self : Particle.t,
     Particle.init radians from_polar step_55 = Some self /\
     length (Particle.rays self) = 56%nat /\
     nth_error (Particle.rays self) 55
     = Some (Ray.mk (Particle.pos self) (from_polar (radians 360)))) /\
  (360 / step_11 = 11 /\
   (forall (radians : float -> float) (from_polar : float -> Vec2),
    exists self : Particle.t,
      Particle.init radians from_polar step_11 = Some self /\
      length (Particle.rays self) = 11%nat) /\
   Prim2SF step_11 = S754_finite false 4605954164356189 (-47) /\
   (11 * 4605954164356189 < 360 * 2 ^ 47)%Z).
Proof.
  split; [split | split; [|split; [|split]]].
  - vm_compute. reflexivity.
  - intros radians from_polar. eexists. split; [vm_compute; reflexivity|].
    split; vm_compute; reflexivity.
  - vm_compute. reflexivity.
  - intros radians from_polar. eexists. split; [vm_compute; reflexivity|].
    vm_compute. reflexivity.
  - vm_compute. reflexivity.
  - vm_compute. reflexivity.
Qed.

(** * Further properties of the code *)

(** ** Ray.cast and NaN *)

Lemma float_div_nan (p : float) : p / nan = nan.
Proof.
  apply Prim2SF_inj. rewrite FloatAxioms.div_spec.
  change (Prim2SF nan) with S754_nan.
  destruct (Prim2SF p); reflexivity.
Qed.

(** X1. A determinant that is NaN (as [inf - inf] is) passes the guard
    [d == 0], and the test on [t] then fails: [Ray.cast] returns [None]. *)
Theorem cast_nan_none (r : Ray.t) (w : Boundry) :
  Ray.det r w = nan -> Ray.cast r w = None.
Proof.
  intros Hd. rewrite cast_unfold. unfold Ray.param_t. rewrite Hd.
  rewrite float_div_nan. reflexivity.
Qed.

(** The wall from (inf, 0) to (inf, 10) and the ray from (0,0) along +x. *)
Lemma cast_nan_none_witness :
  Ray.cast (Ray.mk (point 0 0) (point 1 0))
           (wall infinity 0 infinity 10) = None.
Proof.
  apply cast_nan_none. vm_compute. reflexivity.
Defined.

(** ** Particle.look: what is recorded *)

(** The test of the scan on one ray: some wall of [bs] gives a hit that
    passes [if pt:], at a distance below [inf]. *)
Definition hits_some (distance : Vec2 -> Vec2 -> float) (o : Vec2)
    (bs : list Boundry) (r : Ray.t) : bool :=
  existsb (fun w => match Ray.cast r w with
                    | Some p => Vec2_bool p && (distance o p <? infinity)
                    | None => false
                    end) bs.

Section LookExtras.

Variable distance : Vec2 -> Vec2 -> float.

Local Abbreviation closest_of := (Particle.closest_of distance).
Local Abbreviation look := (Particle.look distance).

Lemma look_entry (self : Particle.t) (bs : list Boundry) (c : Vec2) :
  In c (Particle.ray_lines (look self bs)) ->
  exists r, In r (Particle.rays self) /\
            closest_of (Particle.pos self) r bs = Some c.
Proof.
  rewrite (proj2 (proj2 (look_spec distance self bs))).
  intros H. apply in_flat_map in H. destruct H as (r & Hr & Hc).
  exists r. split; [exact Hr|]. unfold recorded in Hc.
  destruct (closest_of (Particle.pos self) r bs) as [c'|]; [|destruct Hc].
  destruct Hc as [->|[]]. reflexivity.
Qed.

Lemma recorded_hits_some (o : Vec2) (bs : list Boundry) (r : Ray.t) :
  length (recorded distance o bs r)
  = if hits_some distance o bs r then 1%nat else 0%nat.
Proof.
  unfold recorded, hits_some.
  destruct (closest_of o r bs) as [c|] eqn:E.
  - apply closest_of_some in E.
    destruct E as ((w & Hw & Hc & Hb) & Hfin & _).
    match goal with |- context [existsb ?f bs] =>
      replace (existsb f bs) with true; [reflexivity|] end.
    symmetry. apply existsb_exists. exists w. split; [exact Hw|].
    rewrite Hc, Hb, Hfin. reflexivity.
  - match goal with |- context [existsb ?f bs] =>
      destruct (existsb f bs) eqn:Ex; [|reflexivity] end.
    apply existsb_exists in Ex. destruct Ex as (w & Hw & Ht).
    destruct (Ray.cast r w) as [p|] eqn:Ec; [|discriminate Ht].
    apply andb_true_iff in Ht. destruct Ht as [Hb Hfin].
    rewrite (proj1 (closest_of_none distance o r bs) E w p Hw (conj Ec Hb))
      in Hfin.
    discriminate Hfin.
Qed.

(** X2. Every entry of [ray_lines] after [look] is a hit: the point that
    [Ray.cast] returns for a ray of the fan and a wall of [bs], which
    passes the test [if pt:], at a distance below [inf], and no such hit of
    that ray is at a smaller distance from the observer. *)
Theorem look_entries_are_nearest_hits (self : Particle.t)
    (bs : list Boundry) (c : Vec2) :
  In c (Particle.ray_lines (look self bs)) ->
  exists (r : Ray.t) (w : Boundry),
    In r (Particle.rays self) /\ In w bs /\
    Ray.cast r w = Some c /\ Vec2_bool c = true /\
    (distance (Particle.pos self) c <? infinity) = true /\
    (forall w' q, In w' bs -> Ray.cast r w' = Some q -> Vec2_bool q = true ->
       (distance (Particle.pos self) q <? distance (Particle.pos self) c)
       = false).
Proof.
  intros H. apply look_entry in H. destruct H as (r & Hr & Hc).
  apply closest_of_some in Hc.
  destruct Hc as ((w & Hw & Hcast & Hb) & Hfin & Hmin).
  exists r, w. repeat split; trivial.
  intros w' q Hw' Hq Hqb. apply (Hmin w' q Hw'). split; assumption.
Qed.

(** X3. [look] never records the zero vector: every entry of [ray_lines]
    passes the test [if closest:], so a hit at the point (0,0) of the
    window is never among them. *)
Theorem look_never_records_zero (self : Particle.t) (bs : list Boundry) :
  Forall (fun c => Vec2_bool c = true) (Particle.ray_lines (look self bs)) /\
  ~ In (mkVec2 0 0) (Particle.ray_lines (look self bs)).
Proof.
  assert (H : forall c, In c (Particle.ray_lines (look self bs)) ->
                        Vec2_bool c = true).
  { intros c Hc. apply look_entry in Hc. destruct Hc as (r & _ & Hc).
    apply closest_of_some in Hc. destruct Hc as ((w & _ & _ & Hb) & _).
    exact Hb. }
  split.
  - apply Forall_forall. exact H.
  - intros Hin. apply H in Hin. discriminate Hin.
Qed.

(** X4. [look] records one entry for each ray that has, on some wall of
    [bs], a hit that passes [if pt:] at a distance below [inf], and none
    for the other rays. *)
Theorem look_counts_hitting_rays (self : Particle.t) (bs : list Boundry) :
  length (Particle.ray_lines (look self bs))
  = length (filter (hits_some distance (Particle.pos self) bs)
              (Particle.rays self)).
Proof.
  rewrite (proj2 (proj2 (look_spec distance self bs))).
  induction (Particle.rays self) as [|r rs IH]; simpl; [reflexivity|].
  rewrite length_app, recorded_hits_some, IH.
  destruct (hits_some distance (Particle.pos self) bs r); reflexivity.
Qed.

(** X5. [look] starts from an empty [ray_lines]: its result does not
    depend on the entries that were there, and looking twice at the same
    walls is looking once. *)
Theorem look_discards_previous (self : Particle.t) (bs : list Boundry)
    (stale : list Vec2) :
  look (Particle.mk (Particle.pos self) (Particle.rays self) stale) bs
  = look self bs /\
  look (look self bs) bs = look self bs.
Proof.
  split.
  - reflexivity.
  - destruct (look_spec distance self bs) as (Hp & Hr & Hl).
    destruct (look_spec distance (look self bs) bs) as (Hp' & Hr' & Hl').
    apply Particle_eq; congruence.
Qed.

(** X6. The tie-break of the scan, on hits that pass [if pt:]: a wall
    whose hit is at a distance below [inf], strictly smaller than the
    distances of the hits of the walls before it and not above those of
    the walls after it, is the one recorded. *)
Theorem look_tie_keeps_first (o : Vec2) (r : Ray.t) (l : list Vec2)
    (before after : list Boundry) (w : Boundry) (p : Vec2) :
  counted_hit r w p ->
  (distance o p <? infinity) = true ->
  (forall w' q, In w' before -> counted_hit r w' q ->
                (distance o p <? distance o q) = true) ->
  (forall w' q, In w' after -> counted_hit r w' q ->
                (distance o q <? distance o p) = false) ->
  Particle.ray_lines (look (Particle.mk o [r] l) (before ++ w :: after))
  = [p].
Proof.
  intros Hp Hfin Hb Ha. rewrite look_single. unfold recorded.
  rewrite (closest_of_first_nearest distance o r before after w p
             Hp Hfin Hb Ha).
  reflexivity.
Qed.

(** X7. The nearest hit in any order, on hits that pass [if pt:]: when
    the hit of one wall is at a distance below [inf] and strictly smaller
    than the distance of every other hit of the ray, it is the one
    recorded for every order of the walls. *)
Theorem look_nearest_any_order (o : Vec2) (r : Ray.t) (l : list Vec2)
    (bs bs' : list Boundry) (w : Boundry) (p : Vec2) :
  Permutation bs bs' ->
  In w bs -> counted_hit r w p ->
  (distance o p <? infinity) = true ->
  (forall w' q, In w' bs -> counted_hit r w' q ->
                q = p \/ (distance o p <? distance o q) = true) ->
  Particle.ray_lines (look (Particle.mk o [r] l) bs') = [p].
Proof.
  intros Hperm Hw Hp Hfin Hothers. rewrite look_single. unfold recorded.
  rewrite (closest_of_strictly_nearest distance o r bs' w p).
  - reflexivity.
  - apply (Permutation_in _ Hperm). exact Hw.
  - exact Hp.
  - exact Hfin.
  - intros w' q Hw'. apply Hothers.
    apply (Permutation_in _ (Permutation_sym Hperm)). exact Hw'.
Qed.

End LookExtras.

(** The observer of [two_rays] sees the wall (10,-10)-(10,10) at (10,0). *)
Lemma look_entries_are_nearest_hits_witness :
  exists (r : Ray.t) (w : Boundry),
    In r (Particle.rays two_rays) /\ In w [wall 10 (-10) 10 10] /\
    Ray.cast r w = Some (point 10 0) /\ Vec2_bool (point 10 0) = true /\
    (Vec2_distance (Particle.pos two_rays) (point 10 0) <? infinity) = true /\
    (forall w' q, In w' [wall 10 (-10) 10 10] ->
       Ray.cast r w' = Some q -> Vec2_bool q = true ->
       (Vec2_distance (Particle.pos two_rays) q
        <? Vec2_distance (Particle.pos two_rays) (point 10 0)) = false).
Proof.
  apply (look_entries_are_nearest_hits Vec2_distance two_rays
           [wall 10 (-10) 10 10] (point 10 0)).
  vm_compute. left. reflexivity.
Defined.

(** An observer at (15,5) and a ray from (0,0) along +x: its hits (20,0)
    and (10,0) are at the same distance of the observer. *)
Definition ray_along_x : Ray.t := Ray.mk (point 0 0) (point 1 0).

Lemma ray_along_x_10 :
  Ray.cast ray_along_x (wall 10 (-10) 10 10) = Some (point 10 0).
Proof. vm_compute. reflexivity. Qed.

Lemma ray_along_x_20 :
  Ray.cast ray_along_x (wall 20 (-10) 20 10) = Some (point 20 0).
Proof. vm_compute. reflexivity. Qed.

Lemma look_tie_keeps_first_witness :
  Particle.ray_lines
    (Particle.look Vec2_distance (Particle.mk (point 15 5) [ray_along_x] [])
       ([] ++ wall 20 (-10) 20 10 :: [wall 10 (-10) 10 10]))
  = [point 20 0].
Proof.
  apply look_tie_keeps_first.
  - split; [exact ray_along_x_20 | vm_compute; reflexivity].
  - vm_compute. reflexivity.
  - intros w' q [].
  - intros w' q [<-|[]] [Hq _]. rewrite ray_along_x_10 in Hq.
    injection Hq as <-. vm_compute. reflexivity.
Defined.

Lemma look_nearest_any_order_witness :
  Particle.ray_lines
    (Particle.look Vec2_distance (Particle.mk (point 0 0) [ray_along_x] [])
       [wall 10 (-10) 10 10; wall 20 (-10) 20 10])
  = [point 10 0].
Proof.
  apply (look_nearest_any_order Vec2_distance (point 0 0) ray_along_x []
           [wall 20 (-10) 20 10; wall 10 (-10) 10 10]
           [wall 10 (-10) 10 10; wall 20 (-10) 20 10]
           (wall 10 (-10) 10 10) (point 10 0)).
  - apply perm_swap.
  - right. left. reflexivity.
  - split; [exact ray_along_x_10 | vm_compute; reflexivity].
  - vm_compute. reflexivity.
  - intros w' q [<-|[<-|[]]] [Hq _].
    + rewrite ray_along_x_20 in Hq. injection Hq as <-. right.
      vm_compute. reflexivity.
    + rewrite ray_along_x_10 in Hq. injection Hq as <-. left. reflexivity.
Defined.

(** ** The fan follows the observer *)

(** Every ray of the fan starts at the observer. *)
Definition rays_at_observer (s : Particle.t) : Prop :=
  forall r, In r (Particle.rays s) -> Ray.pos r = Particle.pos s.

Lemma Ray_move_to_same (r : Ray.t) : Ray.move_to r (Ray.pos r) = r.
Proof. destruct r. reflexivity. Qed.

Lemma init_rays_at_observer (radians : float -> float)
    (from_polar : float -> Vec2) (step : float) (self : Particle.t) :
  Particle.init radians from_polar step = Some self -> rays_at_observer self.
Proof.
  unfold Particle.init. destruct (arange 0 360 step) as [angles|];
    [|discriminate].
  intros [= <-] r Hr. cbn [Particle.rays Particle.pos] in *.
  apply in_map_iff in Hr. destruct Hr as (a0 & <- & _). reflexivity.
Qed.

(** X8. An invariant of the fan: every ray starts at the observer.
    [Particle.__init__] and [Particle.move_to] establish it, whatever the
    fan was, and [Particle.look] keeps it. *)
Theorem rays_follow_observer (distance : Vec2 -> Vec2 -> float)
    (radians : float -> float) (from_polar : float -> Vec2) (step : float)
    (self : Particle.t) (p : Vec2) (bs : list Boundry) :
  (forall fresh, Particle.init radians from_polar step = Some fresh ->
                 rays_at_observer fresh) /\
  rays_at_observer (Particle.move_to self p) /\
  (rays_at_observer self ->
   rays_at_observer (Particle.look distance self bs)).
Proof.
  split; [|split].
  - intros fresh. apply init_rays_at_observer.
  - intros r Hr. unfold Particle.move_to in Hr. simpl in Hr.
    apply in_map_iff in Hr. destruct Hr as (r0 & <- & _). reflexivity.
  - intros H r Hr.
    destruct (look_spec distance self bs) as (Hp & Hrs & _).
    rewrite Hp. rewrite Hrs in Hr. apply H. exact Hr.
Qed.

(** X9. [Particle.move_to] twice is the second move alone; a move leaves
    [ray_lines] as it was, so that its entries are the hits seen from the
    position before, until [look] is called; and a move to the position of
    the observer changes nothing when the rays start there. *)
Theorem move_to_last_wins (self : Particle.t) (p q : Vec2) :
  Particle.move_to (Particle.move_to self p) q = Particle.move_to self q /\
  Particle.ray_lines (Particle.move_to self p) = Particle.ray_lines self /\
  (rays_at_observer self ->
   Particle.move_to self (Particle.pos self) = self).
Proof.
  split; [|split].
  - unfold Particle.move_to; simpl. rewrite map_map. reflexivity.
  - reflexivity.
  - intros H. apply Particle_eq; simpl; trivial.
    rewrite <- (map_id (Particle.rays self)) at 2.
    apply map_ext_in. intros r Hr. rewrite <- (H r Hr).
    apply Ray_move_to_same.
Qed.

(** ** The affine stack *)

(** The screen with the matrix [m] appended to the stack. *)
Definition pushed (m : Affine) (s : Screen) : Screen :=
  {| _stack := _stack s ++ [m]; drawn := drawn s |}.

(** A computation that leaves the stack as it found it, whether it returns
    or raises. *)
Definition keeps_stack {A : Type} (body : Draw A) : Prop :=
  forall s, _stack (snd (body s)) = _stack s.

Lemma stack_last_pushed (m : Affine) (s : Screen) :
  stack_last (pushed m s) = (Returned m, pushed m s).
Proof.
  unfold stack_last, pushed. cbn [_stack].
  destruct (_stack s) as [|m0 st]; simpl; [reflexivity|].
  rewrite last_last. reflexivity.
Qed.

Lemma stack_pop_pushed (m : Affine) (st : list Affine)
    (l : list (float * float * float * float)) :
  stack_pop {| _stack := st ++ [m]; drawn := l |}
  = (Returned tt, {| _stack := st; drawn := l |}).
Proof.
  unfold stack_pop. cbn [_stack drawn]. rewrite removelast_last.
  destruct st; reflexivity.
Qed.

(** The block of a context manager, once the matrix [m] is appended: the
    body runs on the stack with [m], and the stack is popped. *)
Lemma with_block {A : Type} (m : Affine) (body : Draw A) (s : Screen) :
  _stack (snd (body (pushed m s))) = _stack s ++ [m] ->
  (stack_append m ;; finally body stack_pop) s
  = (fst (body (pushed m s)),
     {| _stack := _stack s; drawn := drawn (snd (body (pushed m s))) |}).
Proof.
  intros H. unfold bind, stack_append, finally. fold (pushed m s).
  destruct (body (pushed m s)) as [r s'] eqn:E. simpl in *.
  destruct s' as [st' l']. simpl in H. subst st'.
  rewrite stack_pop_pushed. reflexivity.
Qed.

Lemma apply_pushed (m : Affine) (x y : float) (s : Screen) :
  _apply x y (pushed m s)
  = (let '(a, b, c, d, e, f) := m in
     Returned (a * x + b * y + e, c * x + d * y + f), pushed m s).
Proof.
  unfold _apply, bind. rewrite stack_last_pushed.
  destruct m as [[[[[a b] c] d] e] f]. reflexivity.
Qed.

(** X10. [_apply] reads the stack and changes nothing; it raises exactly
    when the stack is empty, and otherwise takes the point through the
    last matrix of the stack. *)
Theorem apply_reads_top (x y : float) (st : list Affine)
    (a b c d e f : float) (l : list (float * float * float * float))
    (s : Screen) :
  snd (_apply x y s) = s /\
  (fst (_apply x y s) = Raised <-> _stack s = []) /\
  _apply x y {| _stack := st ++ [(a, b, c, d, e, f)]; drawn := l |}
  = (Returned (a * x + b * y + e, c * x + d * y + f),
     {| _stack := st ++ [(a, b, c, d, e, f)]; drawn := l |}).
Proof.
  split; [|split].
  - unfold _apply, bind, stack_last.
    destruct (_stack s) as [|m st']; [reflexivity|].
    destruct (last st' m) as [[[[[a' b'] c'] d'] e'] f']. reflexivity.
  - unfold _apply, bind, stack_last.
    destruct (_stack s) as [|m st']; simpl; [tauto|].
    destruct (last st' m) as [[[[[a' b'] c'] d'] e'] f']. simpl.
    split; discriminate.
  - apply (apply_pushed (a, b, c, d, e, f) x y
             {| _stack := st; drawn := l |}).
Qed.

(** The block of a context manager that appends [m'] on a stack that ends
    with [m], around a call of [_apply]. *)
Lemma manager_apply (m m' : Affine) (x y : float) (st : list Affine)
    (l : list (float * float * float * float)) :
  (stack_append m' ;; finally (_apply x y) stack_pop)
    {| _stack := st ++ [m]; drawn := l |}
  = (let '(a, b, c, d, e, f) := m' in
     Returned (a * x + b * y + e, c * x + d * y + f),
     {| _stack := st ++ [m]; drawn := l |}).
Proof.
  rewrite with_block; rewrite apply_pushed; [|reflexivity].
  destruct m' as [[[[[a b] c] d] e] f]. reflexivity.
Qed.

Lemma stack_last_top (m : Affine) (st : list Affine)
    (l : list (float * float * float * float)) :
  stack_last {| _stack := st ++ [m]; drawn := l |}
  = (Returned m, {| _stack := st ++ [m]; drawn := l |}).
Proof.
  apply (stack_last_pushed m {| _stack := st; drawn := l |}).
Qed.

(** X11. Inside [with translate(p):], on a stack that ends with the
    matrix [(a,b,c,d,e,f)], [_apply] takes a point through the matrix
    [(a,b,c,d,e + p.x,f + p.y)]: the translation is in the coordinates of
    the window, whatever the matrix; the stack is restored.  On an empty
    stack the block raises. *)
Theorem translate_apply (p : Vec2) (x0 y0 : float) (st : list Affine)
    (a b c d e f : float) (l : list (float * float * float * float)) :
  translate p (_apply x0 y0)
    {| _stack := st ++ [(a, b, c, d, e, f)]; drawn := l |}
  = (Returned (a * x0 + b * y0 + (e + x p), c * x0 + d * y0 + (f + y p)),
     {| _stack := st ++ [(a, b, c, d, e, f)]; drawn := l |}) /\
  translate p (_apply x0 y0) {| _stack := []; drawn := l |}
  = (Raised, {| _stack := []; drawn := l |}).
Proof.
  split; [|reflexivity].
  unfold translate. unfold bind at 1. rewrite stack_last_top.
  apply (manager_apply (a, b, c, d, e, f)
           (a, b, c, d, e + x p, f + y p)).
Qed.

(** X12. Inside [with scale(sx, sy):], on a stack that ends with the
    matrix [(a,b,c,d,e,f)], [_apply] takes a point through the matrix
    [(a*sx, b*sy, c*sx, d*sy, e, f)], with [sy = sx] when [sy] is not
    given; the stack is restored. *)
Theorem scale_apply (sx : float) (sy : option float) (x0 y0 : float)
    (st : list Affine) (a b c d e f : float)
    (l : list (float * float * float * float)) :
  scale sx sy (_apply x0 y0)
    {| _stack := st ++ [(a, b, c, d, e, f)]; drawn := l |}
  = (let sy := match sy with None => sx | Some v => v end in
     Returned (a * sx * x0 + b * sy * y0 + e, c * sx * x0 + d * sy * y0 + f),
     {| _stack := st ++ [(a, b, c, d, e, f)]; drawn := l |}).
Proof.
  unfold scale. unfold bind at 1. rewrite stack_last_top.
  apply (manager_apply (a, b, c, d, e, f)
           (a * sx, b * match sy with None => sx | Some v => v end,
            c * sx, d * match sy with None => sx | Some v => v end, e, f)).
Qed.

(** X13. Inside [with rotate(deg):], on a stack that ends with the matrix
    [(a,b,c,d,e,f)], [_apply] takes a point through the matrix
    [(a*ca + b*sa, -a*sa + b*ca, c*ca + d*sa, -c*sa + d*ca, e, f)] for the
    cosine [ca] and the sine [sa] of the angle; the stack is restored. *)
Theorem rotate_apply (radians cos sin : float -> float) (deg x0 y0 : float)
    (st : list Affine) (a b c d e f : float)
    (l : list (float * float * float * float)) :
  rotate radians cos sin deg (_apply x0 y0)
    {| _stack := st ++ [(a, b, c, d, e, f)]; drawn := l |}
  = (let ca := cos (radians deg) in
     let sa := sin (radians deg) in
     Returned ((a * ca + b * sa) * x0 + (- a * sa + b * ca) * y0 + e,
               (c * ca + d * sa) * x0 + (- c * sa + d * ca) * y0 + f),
     {| _stack := st ++ [(a, b, c, d, e, f)]; drawn := l |}).
Proof.
  unfold rotate. unfold bind at 1. rewrite stack_last_top.
  apply (manager_apply (a, b, c, d, e, f)
           (a * cos (radians deg) + b * sin (radians deg),
            - a * sin (radians deg) + b * cos (radians deg),
            c * cos (radians deg) + d * sin (radians deg),
            - c * sin (radians deg) + d * cos (radians deg), e, f)).
Qed.

Lemma manager_keeps_stack {A : Type} (enter : Affine -> Affine)
    (body : Draw A) :
  keeps_stack body ->
  keeps_stack ('(a, b, c, d, e, f) <- stack_last ;;
               stack_append (enter (a, b, c, d, e, f)) ;;
               finally body stack_pop).
Proof.
  intros Hb s. unfold bind at 1. unfold stack_last.
  destruct (_stack s) as [|m st] eqn:Es; [simpl; congruence|].
  destruct (last st m) as [[[[[a b] c] d] e] f].
  rewrite with_block.
  - simpl. congruence.
  - rewrite Hb. reflexivity.
Qed.

Lemma draw_line_pushed (m : Affine) (x1 y1 x2 y2 : float) (s : Screen) :
  draw_line x1 y1 x2 y2 (pushed m s)
  = (Returned tt,
     let '(a, b, c, d, e, f) := m in
     {| _stack := _stack s ++ [m];
        drawn := drawn s ++ [(a * x1 + b * y1 + e, c * x1 + d * y1 + f,
                              a * x2 + b * y2 + e, c * x2 + d * y2 + f)] |}).
Proof.
  destruct m as [[[[[a b] c] d] e] f].
  unfold draw_line, bind. rewrite apply_pushed. cbn iota.
  rewrite apply_pushed. reflexivity.
Qed.

Lemma draw_line_keeps_stack (x1 y1 x2 y2 : float) :
  keeps_stack (draw_line x1 y1 x2 y2).
Proof.
  intros s. unfold draw_line, bind, _apply, bind, stack_last.
  destruct (_stack s) as [|m st] eqn:Es; [simpl; congruence|].
  destruct (last st m) as [[[[[a b] c] d] e] f]. simpl.
  rewrite Es. destruct (last st m) as [[[[[a' b'] c'] d'] e'] f']. simpl.
  congruence.
Qed.

(** X14. The three context managers restore the stack: when the body of
    the [with] block leaves the stack as it found it, so does the block,
    whether the body returns or raises (the [finally] clause pops). *)
Theorem managers_restore_stack {A : Type} (body : Draw A) (p : Vec2)
    (radians cos sin : float -> float) (deg sx : float) (sy : option float) :
  keeps_stack body ->
  keeps_stack (translate p body) /\
  keeps_stack (rotate radians cos sin deg body) /\
  keeps_stack (scale sx sy body).
Proof.
  intros Hb. split; [|split].
  - exact (manager_keeps_stack
             (fun '(a, b, c, d, e, f) => (a, b, c, d, e + x p, f + y p))
             body Hb).
  - exact (manager_keeps_stack
             (fun '(a, b, c, d, e, f) =>
                (a * cos (radians deg) + b * sin (radians deg),
                 - a * sin (radians deg) + b * cos (radians deg),
                 c * cos (radians deg) + d * sin (radians deg),
                 - c * sin (radians deg) + d * cos (radians deg), e, f))
             body Hb).
  - exact (manager_keeps_stack
             (fun '(a, b, c, d, e, f) =>
                (a * sx, b * match sy with None => sx | Some v => v end,
                 c * sx, d * match sy with None => sx | Some v => v end,
                 e, f))
             body Hb).
Qed.

Lemma managers_restore_stack_witness :
  keeps_stack (translate (point 3 4) (draw_line 0 0 1 1)) /\
  keeps_stack (rotate (fun d => d) (fun _ => 0) (fun _ => 1) 90
                 (draw_line 0 0 1 1)) /\
  keeps_stack (scale 2 None (draw_line 0 0 1 1)).
Proof.
  apply managers_restore_stack. apply draw_line_keeps_stack.
Defined.

(** X15. [Ray.show] draws one segment and restores the stack.  On a stack
    that ends with the matrix [(a,b,c,d,e,f)], the segment is the one from
    the local point (0,0) to the local point of ten times the direction,
    both taken through the matrix [(a,b,c,d,e + pos.x,f + pos.y)]; on the
    stack of the loaded module, whose matrix is the identity, it is drawn
    for a ray from (3,4) along +x from (3,4) to (13,4). *)
Theorem show_draws_ray (r : Ray.t) (st : list Affine) (a b c d e f : float)
    (l : list (float * float * float * float)) :
  Ray.show r {| _stack := st ++ [(a, b, c, d, e, f)]; drawn := l |}
  = (Returned tt,
     {| _stack := st ++ [(a, b, c, d, e, f)];
        drawn :=
          l ++ [(a * 0 + b * 0 + (e + x (Ray.pos r)),
                 c * 0 + d * 0 + (f + y (Ray.pos r)),
                 a * (x (Ray.dir r) * 10) + b * (y (Ray.dir r) * 10)
                 + (e + x (Ray.pos r)),
                 c * (x (Ray.dir r) * 10) + d * (y (Ray.dir r) * 10)
                 + (f + y (Ray.pos r)))] |}) /\
  Ray.show (Ray.mk (point 3 4) (point 1 0)) initial_screen
  = (Returned tt,
     {| _stack := _stack initial_screen; drawn := [(3, 4, 13, 4)] |}).
Proof.
  split; [|vm_compute; reflexivity].
  change {| _stack := st ++ [(a, b, c, d, e, f)]; drawn := l |}
    with (pushed (a, b, c, d, e, f) {| _stack := st; drawn := l |}).
  unfold Ray.show, translate. unfold bind at 1.
  rewrite stack_last_pushed.
  rewrite with_block; rewrite draw_line_pushed; reflexivity.
Qed.

(** ** GameView *)

(** A point of the window, edges included. *)
Definition in_window (p : Vec2) : Prop :=
  (0 <=? x p) = true /\ (x p <=? WINDOW_WIDTH) = true /\
  (0 <=? y p) = true /\ (y p <=? WINDOW_HEIGHT) = true.

(** X16. One step of the simulation.  [on_update] adds the float 0.01 to
    [t], keeps the walls and moves the observer to the point of the two
    noise values scaled by the size of the window; the rays start at the
    new position with their directions unchanged, and [ray_lines] holds the
    hits of the moved fan, seen from the new position.  The argument
    [delta_time] is not used. *)
Theorem on_update_step (distance : Vec2 -> Vec2 -> float)
    (pnoise1 : float -> float -> float -> float) (self : GameView.view)
    (delta_time : float) :
  let after := GameView.on_update distance pnoise1 self delta_time in
  let t' := GameView.t self + 0x1.47ae147ae147bp-7 in
  let p := mkVec2 (noise pnoise1 t' 1024 0 * WINDOW_WIDTH)
                  (noise pnoise1 (t' + 100) 1024 0 * WINDOW_HEIGHT) in
  GameView.t after = t' /\
  GameView.walls after = GameView.walls self /\
  Particle.pos (GameView.particle after) = p /\
  rays_at_observer (GameView.particle after) /\
  map Ray.dir (Particle.rays (GameView.particle after))
  = map Ray.dir (Particle.rays (GameView.particle self)) /\
  Particle.ray_lines (GameView.particle after)
  = flat_map (recorded distance p (GameView.walls self))
             (Particle.rays (GameView.particle after)) /\
  after = GameView.on_update distance pnoise1 self 0.
Proof.
  intros after t' p.
  set (moved := Particle.move_to (GameView.particle self) p).
  assert (Ha : GameView.particle after
               = Particle.look distance moved (GameView.walls self))
    by reflexivity.
  destruct (look_spec distance moved (GameView.walls self)) as (Hp & Hr & Hl).
  split; [reflexivity | split; [reflexivity | split; [|split; [|split; [|split]]]]].
  - rewrite Ha, Hp. reflexivity.
  - intros r Hin. rewrite Ha in *. rewrite Hp. rewrite Hr in Hin.
    unfold moved, Particle.move_to in Hin. cbn [Particle.rays] in Hin.
    apply in_map_iff in Hin. destruct Hin as (r0 & <- & _). reflexivity.
  - rewrite Ha, Hr. unfold moved, Particle.move_to. cbn [Particle.rays].
    rewrite map_map. reflexivity.
  - rewrite Ha, Hl, Hr. reflexivity.
  - reflexivity.
Qed.

(** X17. The scene that [reset] builds: nine walls, the five random ones
    first and the four walls on the edges of the window last; every wall
    end is a point of the window when [randint] stays within its bounds;
    [t] is zero; the observer is at the centre (512, 360) of the window
    with a fan of 360 rays, one per degree, and no hit recorded. *)
Theorem reset_scene (radians : float -> float) (from_polar : float -> Vec2)
    (randint : nat -> float -> float -> float) :
  (forall k hi, (0 <=? hi) = true ->
                (0 <=? randint k 0 hi) = true /\
                (randint k 0 hi <=? hi) = true) ->
  exists g : GameView.view,
    GameView.reset radians from_polar randint = Some g /\
    length (GameView.walls g) = 9%nat /\
    skipn 5 (GameView.walls g) = GameView.edge_walls /\
    (forall w, In w (GameView.walls g) ->
               in_window (a w) /\ in_window (b w)) /\
    GameView.t g = 0 /\
    Particle.pos (GameView.particle g) = point 512 360 /\
    length (Particle.rays (GameView.particle g)) = 360%nat /\
    (forall i, (i < 360)%nat ->
       nth_error (Particle.rays (GameView.particle g)) i
       = Some (Ray.mk (point 512 360)
                 (from_polar (radians (arange_item 0 1 i))))) /\
    Particle.ray_lines (GameView.particle g) = [].
Proof.
  intros Hrand. unfold GameView.reset, Particle.init.
  rewrite (arange_fan 1 360) by (first [lia | vm_compute; reflexivity]).
  eexists. split; [reflexivity|].
  cbn [GameView.walls GameView.t GameView.particle Particle.pos Particle.rays
       Particle.ray_lines].
  split; [reflexivity | split; [reflexivity | split; [|split; [reflexivity|]]]].
  - intros w Hw. apply in_app_or in Hw. destruct Hw as [Hw|Hw].
    + apply in_map_iff in Hw. destruct Hw as (k & <- & _).
      unfold GameView.random_wall, Boundry_init, in_window. cbn [a b x y].
      repeat split; apply Hrand; vm_compute; reflexivity.
    + unfold GameView.edge_walls, Boundry_init, in_window in *.
      simpl in Hw.
      destruct Hw as [<-|[<-|[<-|[<-|[]]]]]; cbn [a b x y];
        repeat split; vm_compute; reflexivity.
  - split; [vm_compute; reflexivity | split; [|split; [|reflexivity]]].
    + rewrite !length_map, length_seq. reflexivity.
    + intros i Hi. rewrite map_map, nth_error_map, nth_error_seq.
      change (Z.to_nat 360) with 360%nat.
      apply Nat.ltb_lt in Hi. rewrite Hi. reflexivity.
Qed.

Lemma reset_scene_witness :
  exists g : GameView.view,
    GameView.reset (fun d => d) (fun d => mkVec2 d 0) (fun _ _ _ => 0)
    = Some g /\
    length (GameView.walls g) = 9%nat /\
    skipn 5 (GameView.walls g) = GameView.edge_walls /\
    (forall w, In w (GameView.walls g) ->
               in_window (a w) /\ in_window (b w)) /\
    GameView.t g = 0 /\
    Particle.pos (GameView.particle g) = point 512 360 /\
    length (Particle.rays (GameView.particle g)) = 360%nat /\
    (forall i, (i < 360)%nat ->
       nth_error (Particle.rays (GameView.particle g)) i
       = Some (Ray.mk (point 512 360) (mkVec2 (arange_item 0 1 i) 0))) /\
    Particle.ray_lines (GameView.particle g) = [].
Proof.
  apply (reset_scene (fun d => d) (fun d => mkVec2 d 0) (fun _ _ _ => 0)).
  intros k hi H. split; [reflexivity | exact H].
Defined.
